(** * VIDEO.C: DOS text-mode video adapter library

    A shallow embedding of [src/libs/video/VIDEO.C] (MS C 5.0, small
    model) and the properties of its adapter detection cascade, its
    attribute mapper and its memory-mapped output primitives.

    Conventions of the embedding.
    - [int] is the 16-bit two's complement integer of the 8086 target:
      values are kept in [Z] and every arithmetic result goes through
      [wrap16].  [long] is 32 bits wide.
    - A [char far *] is its 32-bit segment:offset value; pointer
      arithmetic touches the offset half only ([far_add]).
    - The three file-level statics, the port traffic and the far-memory
      stores form the [state] every function threads.
    - The hardware ([int86], [inp], the bytes behind a far pointer in
      the adapter ROM area) is a [machine]: one answer for each request. *)

From Stdlib Require Import String Ascii ZArith List Bool Lia.
Import ListNotations.
Local Open Scope Z_scope.

(** ** Machine integers *)

Module Int16.

Definition min_int : Z := -32768.
Definition max_int : Z := 32767.

(** The value an [int] holds after a result is stored in 16 bits. *)
Definition wrap16 (z : Z) : Z := (z + 32768) mod 65536 - 32768.

Definition in_range (z : Z) : Prop := min_int <= z <= max_int.

End Int16.
Import Int16.

(** The low byte of a value: what a store through [char *] or a
    conversion to [unsigned char] keeps. *)
Definition byte (z : Z) : Z := Z.land z 0xFF.

(** C truth of an [int]. *)
Definition truthy (z : Z) : bool := negb (z =? 0).

(** ** Far pointers *)

Definition farptr := Z.

Definition MONO_BASE : farptr := 0xB0000000.   (* B000:0000 *)
Definition COLOR_BASE : farptr := 0xB8000000.  (* B800:0000 *)

(** [p + k] on a far pointer: the segment is kept, the offset wraps
    within its 64K. *)
Definition far_add (p : farptr) (k : Z) : farptr :=
  Z.lor (Z.land p 0xFFFF0000) (Z.land (p + k) 0xFFFF).

(** ** Adapter types (the [VID_*] constants of video.h) *)

Inductive adapter : Set :=
  | VID_MDA | VID_HERCULES | VID_CGA | VID_EGA | VID_VGA
  | VID_PGA | VID_MCGA | VID_HERCPLUS | VID_INCOLOR | VID_COLORPLUS.

Definition all_adapters : list adapter :=
  [VID_MDA; VID_HERCULES; VID_HERCPLUS; VID_INCOLOR; VID_CGA;
   VID_COLORPLUS; VID_EGA; VID_VGA; VID_PGA; VID_MCGA].

(** ** Register block of [int86] *)

Record REGS : Set := mkREGS {
  ax : Z; bx : Z; cx : Z; dx : Z; si : Z; di : Z; cflag : Z
}.

Definition al (r : REGS) : Z := Z.land (ax r) 0xFF.
Definition ah (r : REGS) : Z := Z.land (Z.shiftr (ax r) 8) 0xFF.
Definition bl (r : REGS) : Z := Z.land (bx r) 0xFF.
Definition bh (r : REGS) : Z := Z.land (Z.shiftr (bx r) 8) 0xFF.

Definition set_lo (w v : Z) : Z := Z.lor (Z.land w 0xFF00) (byte v).
Definition set_hi (w v : Z) : Z := Z.lor (Z.land w 0x00FF) (Z.shiftl (byte v) 8).

Definition set_al (v : Z) (r : REGS) : REGS :=
  mkREGS (set_lo (ax r) v) (bx r) (cx r) (dx r) (si r) (di r) (cflag r).
Definition set_ah (v : Z) (r : REGS) : REGS :=
  mkREGS (set_hi (ax r) v) (bx r) (cx r) (dx r) (si r) (di r) (cflag r).
Definition set_bl (v : Z) (r : REGS) : REGS :=
  mkREGS (ax r) (set_lo (bx r) v) (cx r) (dx r) (si r) (di r) (cflag r).

(** ** Hardware and program state *)

(** What the machine answers.  [bios n r] is the register block after
    [int86(n, &r, &r)]; [farbyte p] the byte behind a far pointer
    outside the video buffer; [port_in port k ws] the value of the
    [k]-th read of [port] (counting from 0) when [ws] lists the values
    written to that port so far, newest first. *)
Record machine : Type := mkMachine {
  bios : Z -> REGS -> REGS;
  farbyte : farptr -> Z;
  port_in : Z -> nat -> list Z -> Z
}.

Inductive io_event : Set :=
  | PortIn (port value : Z)
  | PortOut (port value : Z).

Record state : Type := mkState {
  vid_base : farptr;
  vid_adapter_type : adapter;
  vid_mono : Z;
  io : list io_event;            (* port traffic, newest first *)
  stores : list (farptr * Z)     (* far-memory byte stores, newest first *)
}.

Definition set_descriptor (type : adapter) (mono : Z) (base : farptr)
  (st : state) : state :=
  mkState base type mono (io st) (stores st).

Definition set_base (base : farptr) (st : state) : state :=
  mkState base (vid_adapter_type st) (vid_mono st) (io st) (stores st).

Definition log_io (e : io_event) (st : state) : state :=
  mkState (vid_base st) (vid_adapter_type st) (vid_mono st)
          (e :: io st) (stores st).

(** [*p = v] through a far pointer. *)
Definition poke (p : farptr) (v : Z) (st : state) : state :=
  mkState (vid_base st) (vid_adapter_type st) (vid_mono st)
          (io st) ((p, byte v) :: stores st).

(** Number of earlier reads of [port], and the values written to it. *)
Fixpoint nreads (port : Z) (l : list io_event) : nat :=
  match l with
  | [] => O
  | PortIn q _ :: l' => if q =? port then S (nreads port l') else nreads port l'
  | PortOut _ _ :: l' => nreads port l'
  end.

Fixpoint written (port : Z) (l : list io_event) : list Z :=
  match l with
  | [] => []
  | PortOut q v :: l' => if q =? port then v :: written port l' else written port l'
  | PortIn _ _ :: l' => written port l'
  end.

(** ** Attribute mapping (VIDEO.C lines 272-295) *)

Definition vid_map_attr (st : state) (attr : Z) : Z :=
  if negb (truthy (vid_mono st)) then attr
  else
    let blink := Z.land attr 0x80 in
    let fg := Z.land attr 0x0F in
    let bg := Z.land (Z.shiftr attr 4) 0x07 in
    let mapped :=
      if (fg =? 0) && (bg =? 0) then 0x00
      else if negb (bg =? 0) then 0x70
      else if truthy (Z.land fg 0x08) then 0x0F
      else if fg =? 1 then 0x01
      else 0x07 in
    Z.lor mapped blink.

(** The contract of the attribute mapper as the specification words it:
    the blink bit is bit 7, the foreground the low nibble, the
    background bits 4 to 6; five rules in priority order. *)
Definition map_attr_contract (mono_flag : bool) (attr : Z) : Z :=
  if mono_flag then
    let blink := if Z.testbit attr 7 then 0x80 else 0 in
    let fg := attr mod 16 in
    let bg := (attr / 16) mod 8 in
    let base :=
      if (fg =? 0) && (bg =? 0) then 0x00
      else if negb (bg =? 0) then 0x70
      else if Z.testbit fg 3 then 0x0F
      else if fg =? 1 then 0x01
      else 0x07 in
    Z.lor base blink
  else attr.

Definition mono_outputs : list Z :=
  [0x00; 0x01; 0x07; 0x0F; 0x70; 0x80; 0x81; 0x87; 0x8F; 0xF0].

(** The 256 attribute bytes. *)
Definition all_bytes : list Z := map Z.of_nat (seq 0 256).


(** ** Constants of video.h

    The header video.h is not among the sources; its screen geometry
    and box glyphs are taken as parameters.  [ibm_text] is the usual
    80x25 screen with the code page 437 single-line glyphs the comment
    above [vid_hline] names. *)
Class video_h : Set := mkVideoH {
  VID_COLS : Z;
  VID_ROWS : Z;
  VID_BOX_H : Z;
  VID_BOX_V : Z;
  VID_BOX_TL : Z;
  VID_BOX_TR : Z;
  VID_BOX_BL : Z;
  VID_BOX_BR : Z
}.

Definition ibm_text : video_h :=
  mkVideoH 80 25 0xC4 0xB3 0xDA 0xBF 0xC0 0xD9.

(** ** Counted loops

    [for (i = 0; i < n; i++) body] with [i] and [n] both [int]: the
    counter stays at or below [n], so it never leaves the [int] range,
    and the body runs [max 0 n] times. *)
Fixpoint for_up {S : Type} (k : nat) (i : Z) (body : Z -> S -> S) (s : S) : S :=
  match k with
  | O => s
  | Datatypes.S k' => for_up k' (i + 1) body (body i s)
  end.

Definition for_lt {S : Type} (n : Z) (body : Z -> S -> S) (s : S) : S :=
  for_up (Z.to_nat n) 0 body s.

(** ** Output primitives (VIDEO.C lines 301-355) *)

Section Output.
Context {hdr : video_h}.

(** [(row * VID_COLS + col) << 1], in [int] arithmetic. *)
Definition cell_offset (row col : Z) : Z :=
  wrap16 (Z.shiftl (wrap16 (wrap16 (row * VID_COLS) + col)) 1).

(** [vid_base + ((row * VID_COLS + col) << 1)] *)
Definition cell_ptr (st : state) (row col : Z) : farptr :=
  far_add (vid_base st) (cell_offset row col).

(** [a = vid_mono ? vid_map_attr(attr) : attr] *)
Definition out_attr (st : state) (attr : Z) : Z :=
  if truthy (vid_mono st) then vid_map_attr st attr else attr.

(** [*p = (char)ch; *(p + 1) = (char)a;] *)
Definition put_cell (p : farptr) (ch a : Z) (st : state) : state :=
  poke (far_add p 1) a (poke p ch st).

Definition vid_putc (row col ch attr : Z) (st : state) : state :=
  let a := out_attr st attr in
  let p := cell_ptr st row col in
  put_cell p ch a st.

(** [*s] and [s++] on a C string: the text ends at the first NUL, or
    where the Rocq string ends. *)
Definition deref (s : string) : Z :=
  match s with
  | EmptyString => 0
  | String c _ => Z.of_N (N_of_ascii c)
  end.

Definition advance (s : string) : string :=
  match s with
  | EmptyString => EmptyString
  | String _ s' => s'
  end.

Definition vid_putsn (row col : Z) (s : string) (n attr : Z)
  (st : state) : state :=
  let a := out_attr st attr in
  let p := cell_ptr st row col in
  snd (for_lt n
        (fun _ '(p, s, st) =>
           let '(c, s') :=
             if truthy (deref s) then (deref s, advance s) else (32, s) in
           (far_add p 2, s', put_cell p c a st))
        (p, s, st)).

Definition vid_fill (row col ch attr count : Z) (st : state) : state :=
  let a := out_attr st attr in
  let p := cell_ptr st row col in
  snd (for_lt count
        (fun _ '(p, st) => (far_add p 2, put_cell p ch a st))
        (p, st)).

(** ** Box drawing (VIDEO.C lines 403-431) *)

Definition vid_hline (row col n attr : Z) (st : state) : state :=
  vid_fill row col VID_BOX_H attr n st.

Definition vid_vline (row col n attr : Z) (st : state) : state :=
  for_lt n (fun i st => vid_putc (wrap16 (row + i)) col VID_BOX_V attr st) st.

(** The three groups of statements of [vid_box]. *)
Definition box_corners (r1 c1 r2 c2 attr : Z) (st : state) : state :=
  let st := vid_putc r1 c1 VID_BOX_TL attr st in
  let st := vid_putc r1 c2 VID_BOX_TR attr st in
  let st := vid_putc r2 c1 VID_BOX_BL attr st in
  vid_putc r2 c2 VID_BOX_BR attr st.

Definition box_hedges (r1 c1 r2 c2 attr : Z) (st : state) : state :=
  let n := wrap16 (wrap16 (c2 - c1) - 1) in
  let st := vid_hline r1 (wrap16 (c1 + 1)) n attr st in
  vid_hline r2 (wrap16 (c1 + 1)) n attr st.

Definition box_vedges (r1 c1 r2 c2 attr : Z) (st : state) : state :=
  let n := wrap16 (wrap16 (r2 - r1) - 1) in
  let st := vid_vline (wrap16 (r1 + 1)) c1 n attr st in
  vid_vline (wrap16 (r1 + 1)) c2 n attr st.

Definition vid_box (r1 c1 r2 c2 attr : Z) (st : state) : state :=
  box_vedges r1 c1 r2 c2 attr
    (box_hedges r1 c1 r2 c2 attr
      (box_corners r1 c1 r2 c2 attr st)).

End Output.

(** ** Reading the store trace *)

(** The byte stores a run added, oldest first. *)
Definition new_stores (before after : state) : list (farptr * Z) :=
  rev (firstn (length (stores after) - length (stores before)) (stores after)).

(** A cell write: the character byte at [p], the attribute byte at
    [p + 1]. *)
Record cell : Set := mkCell { cell_at : farptr; cell_ch : Z; cell_attr : Z }.

Fixpoint cells_of (l : list (farptr * Z)) : list cell :=
  match l with
  | (p, c) :: (_, a) :: l' => mkCell p c a :: cells_of l'
  | _ => []
  end.

(** The cells a run wrote, oldest first. *)
Definition cells_written (before after : state) : list cell :=
  cells_of (new_stores before after).

(** [n] cells from [p] on, holding the characters [cs] under one
    attribute. *)
Fixpoint cell_run (p : farptr) (cs : list Z) (a : Z) : list cell :=
  match cs with
  | [] => []
  | c :: cs' => mkCell p (byte c) (byte a) :: cell_run (far_add p 2) cs' a
  end.

(** The text of a C string: the character codes before its terminator. *)
Fixpoint c_text (s : string) : list Z :=
  match s with
  | EmptyString => []
  | String c s' =>
      if Z.of_N (N_of_ascii c) =? 0 then []
      else Z.of_N (N_of_ascii c) :: c_text s'
  end.

(** A text cut or space-padded to [n] characters, as the specification
    words [put_string_fixed]. *)
Definition fixed_text (cs : list Z) (n : nat) : list Z :=
  firstn n cs ++ repeat 32 (n - length cs).

(** No value occurs twice. *)
Fixpoint distinctb (l : list Z) : bool :=
  match l with
  | [] => true
  | z :: l' => negb (existsb (Z.eqb z) l') && distinctb l'
  end.

(** The places of [cell_run]: [k] cells from [p] on. *)
Fixpoint run_places (p : farptr) (k : nat) : list farptr :=
  match k with
  | O => []
  | S k' => p :: run_places (far_add p 2) k'
  end.

(** The two byte stores of a cell write, in program order. *)
Definition cell_bytes (c : cell) : list (farptr * Z) :=
  [(cell_at c, cell_ch c); (far_add (cell_at c) 1, cell_attr c)].

(** A run from [st] to [st'] stored the cells [cs], in that order, and
    touched nothing else. *)
Definition writes (st st' : state) (cs : list cell) : Prop :=
  stores st' = rev (flat_map cell_bytes cs) ++ stores st
  /\ vid_base st' = vid_base st
  /\ vid_mono st' = vid_mono st
  /\ vid_adapter_type st' = vid_adapter_type st
  /\ io st' = io st.

Section BoxParts.
Context {hdr : video_h}.

(** [k] cells down a column, one per row from [row + i] on: what the
    loop of [vid_vline] addresses. *)
Fixpoint col_run (st : state) (row col i : Z) (k : nat) (ch a : Z) : list cell :=
  match k with
  | O => []
  | S k' =>
      mkCell (cell_ptr st (wrap16 (row + i)) col) (byte ch) (byte a)
      :: col_run st row col (i + 1) k' ch a
  end.

(** The places of [col_run], from the buffer base. *)
Fixpoint col_places (base : farptr) (row col i : Z) (k : nat) : list farptr :=
  match k with
  | O => []
  | S k' =>
      far_add base (cell_offset (wrap16 (row + i)) col)
      :: col_places base row col (i + 1) k'
  end.

(** The edge lengths [vid_box] passes on. *)
Definition box_hlen (c1 c2 : Z) : Z := wrap16 (wrap16 (c2 - c1) - 1).
Definition box_vlen (r1 r2 : Z) : Z := wrap16 (wrap16 (r2 - r1) - 1).

(** The cells each group of statements of [vid_box] writes. *)
Definition box_corner_cells (r1 c1 r2 c2 attr : Z) (st : state) : list cell :=
  cells_written st (box_corners r1 c1 r2 c2 attr st).

Definition box_hedge_cells (r1 c1 r2 c2 attr : Z) (st : state) : list cell :=
  let s1 := box_corners r1 c1 r2 c2 attr st in
  cells_written s1 (box_hedges r1 c1 r2 c2 attr s1).

Definition box_vedge_cells (r1 c1 r2 c2 attr : Z) (st : state) : list cell :=
  let s2 := box_hedges r1 c1 r2 c2 attr (box_corners r1 c1 r2 c2 attr st) in
  cells_written s2 (box_vedges r1 c1 r2 c2 attr s2).

(** The cells a box is meant to show: four corners, a run of
    [VID_BOX_H] along the top and the bottom row, a run of [VID_BOX_V]
    down the left and the right column. *)
Definition corner_list (r1 c1 r2 c2 attr : Z) (st : state) : list cell :=
  let a := byte (out_attr st attr) in
  [ mkCell (cell_ptr st r1 c1) (byte VID_BOX_TL) a;
    mkCell (cell_ptr st r1 c2) (byte VID_BOX_TR) a;
    mkCell (cell_ptr st r2 c1) (byte VID_BOX_BL) a;
    mkCell (cell_ptr st r2 c2) (byte VID_BOX_BR) a ].

Definition hedge_list (r1 c1 r2 c2 attr : Z) (st : state) : list cell :=
  let k := Z.to_nat (box_hlen c1 c2) in
  cell_run (cell_ptr st r1 (wrap16 (c1 + 1))) (repeat VID_BOX_H k) (out_attr st attr)
  ++ cell_run (cell_ptr st r2 (wrap16 (c1 + 1))) (repeat VID_BOX_H k) (out_attr st attr).

Definition vedge_list (r1 c1 r2 c2 attr : Z) (st : state) : list cell :=
  let k := Z.to_nat (box_vlen r1 r2) in
  col_run st (wrap16 (r1 + 1)) c1 0 k VID_BOX_V (out_attr st attr)
  ++ col_run st (wrap16 (r1 + 1)) c2 0 k VID_BOX_V (out_attr st attr).

End BoxParts.

(** ** Adapter detection (VIDEO.C lines 46-238) *)

(** Computations over the program state that may fail to return:
    [None] is a run that has not returned within the fuel it was
    given. *)
Definition M (A : Type) : Type := state -> option (A * state).

Definition ret {A : Type} (a : A) : M A := fun st => Some (a, st).

Definition bind {A B : Type} (m : M A) (k : A -> M B) : M B :=
  fun st =>
    match m st with
    | Some (a, st') => k a st'
    | None => None
    end.

Declare Scope vid_scope.
Delimit Scope vid_scope with vid.
Notation "x <- m ;; k" := (bind m (fun x => k))
  (at level 61, m at next level, right associativity) : vid_scope.
Notation "m ;; k" := (bind m (fun _ => k))
  (at level 61, right associativity) : vid_scope.

(** The mode codes [INT 10h AH=1Ah] reports in BL, with the arguments
    the matching [case] hands to [vid_set] (lines 108-144). *)
Definition display_code (code : Z) : option (adapter * Z) :=
  if code =? 0x01 then Some (VID_MDA, 1)
  else if code =? 0x02 then Some (VID_CGA, 0)
  else if code =? 0x04 then Some (VID_EGA, 0)
  else if code =? 0x05 then Some (VID_EGA, 1)
  else if code =? 0x06 then Some (VID_PGA, 0)
  else if code =? 0x07 then Some (VID_VGA, 1)
  else if code =? 0x08 then Some (VID_VGA, 0)
  else if code =? 0x0A then Some (VID_MCGA, 0)
  else if code =? 0x0B then Some (VID_MCGA, 1)
  else if code =? 0x0C then Some (VID_MCGA, 0)
  else None.

Section Detect.
Variable hw : machine.
Local Open Scope vid_scope.

Definition int86 (intno : Z) (r : REGS) : M REGS :=
  fun st => Some (bios hw intno r, st).

Definition inp (port : Z) : M Z :=
  fun st =>
    let v := byte (port_in hw port (nreads port (io st))
                     (written port (io st))) in
    Some (v, log_io (PortIn port v) st).

Definition outp (port v : Z) : M unit :=
  fun st => Some (tt, log_io (PortOut port (byte v)) st).

(** [unsigned char x = *p] for a far pointer into the adapter area. *)
Definition peek (p : farptr) : M Z :=
  fun st => Some (byte (farbyte hw p), st).

Definition vid_set (type : adapter) (mono : Z) : M unit :=
  fun st =>
    Some (tt, set_descriptor type mono
                (if truthy mono then MONO_BASE else COLOR_BASE) st).

Definition vid_set_ex (type : adapter) (mono : Z) (base : farptr) : M unit :=
  fun st => Some (tt, set_descriptor type mono base st).

Definition detect_pga : M Z :=
  s <- peek 0xC6000300 ;;
  if s =? 0xFF then ret 0
  else
    c <- peek 0xC6000000 ;;
    if c =? 0xFF then ret 0
    else if s >? 0x0F then ret 0
    else ret 1.

(** The poll of lines 181-186, [for (i = 0; i < 32768; i++)], entered
    with the counter at [i]; the result is [changed].

    The counter is declared [int], 16 bits under MS C 5.0 (the file
    header; the library also takes [unsigned int] for a 16-bit word in
    [vid_put_hex_word]).  The constant 32768 does not fit an [int], so
    it has type [long] and the test compares the sign-extended counter
    with it.  [i++] is a 16-bit increment: after 32767 comes -32768.
    The model keeps the test as written, so the exit at the ceiling is
    there for any counter that reaches it. *)
Fixpoint retrace_poll (fuel : nat) (i val : Z) : M Z :=
  match fuel with
  | O => fun _ => None
  | S fuel' =>
      if i <? 32768 then
        v <- inp 0x3BA ;;
        if negb (Z.land v 0x80 =? val) then ret 1
        else retrace_poll fuel' (wrap16 (i + 1)) val
      else ret 0
  end.

(** Lines 173-212: the monochrome branch. *)
Definition vid_init_mono (fuel : nat) : M adapter :=
  (fun st => Some (tt, set_base 0xB0000000 st)) ;;
  v <- inp 0x3BA ;;
  let val := Z.land v 0x80 in
  changed <- retrace_poll fuel 0 val ;;
  if truthy changed then
    id <- inp 0x3BA ;;
    let id := Z.land (Z.shiftr id 4) 0x07 in
    if id =? 1 then vid_set VID_HERCPLUS 1 ;; ret VID_HERCPLUS
    else if id =? 5 then
      vid_set_ex VID_INCOLOR 0 0xB0000000 ;; ret VID_INCOLOR
    else vid_set VID_HERCULES 1 ;; ret VID_HERCULES
  else vid_set VID_MDA 1 ;; ret VID_MDA.

(** Lines 225-237: the ColorPlus probe and the CGA default. *)
Definition vid_init_color : M adapter :=
  let cga := outp 0x3DD 0x00 ;; vid_set VID_CGA 0 ;; ret VID_CGA in
  outp 0x3DD 0x55 ;;
  v <- inp 0x3DD ;;
  if v =? 0x55 then
    outp 0x3DD 0xAA ;;
    v <- inp 0x3DD ;;
    if v =? 0xAA then
      outp 0x3DD 0x00 ;; vid_set VID_COLORPLUS 0 ;; ret VID_COLORPLUS
    else cga
  else cga.

(** Lines 169-237: the equipment word and what follows it. *)
Definition vid_init_equipment (fuel : nat) (regs : REGS) : M adapter :=
  regs <- int86 0x11 regs ;;
  let equip := wrap16 (ax regs) in
  if Z.land (Z.shiftr equip 4) 0x03 =? 0x03 then vid_init_mono fuel
  else vid_init_color.

(** [vid_init]; [regs0] is what the automatic [regs] holds on entry. *)
Definition vid_init (fuel : nat) (regs0 : REGS) : M adapter :=
  regs <- int86 0x10 (set_al 0x00 (set_ah 0x1A regs0)) ;;
  match (if al regs =? 0x1A then display_code (bl regs) else None) with
  | Some (type, mono) => vid_set type mono ;; ret type
  | None =>
      regs <- int86 0x10 (set_bl 0x10 (set_ah 0x12 regs)) ;;
      if negb (bl regs =? 0x10) then
        vid_set VID_EGA (if negb (bh regs =? 0) then 1 else 0) ;;
        ret VID_EGA
      else
        pga <- detect_pga ;;
        if truthy pga then vid_set VID_PGA 0 ;; ret VID_PGA
        else vid_init_equipment fuel regs
  end.

(** *** The probe results of a run

    What each step of the cascade is answered when [vid_init] starts
    in [st] with [regs0] in its register block. *)
Definition video_state_reply (regs0 : REGS) : REGS :=
  bios hw 0x10 (set_al 0x00 (set_ah 0x1A regs0)).

Definition ega_reply (regs0 : REGS) : REGS :=
  bios hw 0x10 (set_bl 0x10 (set_ah 0x12 (video_state_reply regs0))).

Definition pga_status : Z := byte (farbyte hw 0xC6000300).
Definition pga_command : Z := byte (farbyte hw 0xC6000000).

(** Bits 4-5 of the equipment word, as line 172 extracts them. *)
Definition equipment_bits (regs0 : REGS) : Z :=
  Z.land (Z.shiftr (wrap16 (ax (bios hw 0x11 (ega_reply regs0)))) 4) 0x03.

(** The [k]-th read of port 3BAh from [st] on. *)
Definition retrace_sample (st : state) (k : nat) : Z :=
  byte (port_in hw 0x3BA (nreads 0x3BA (io st) + k)
          (written 0x3BA (io st))).

(** What port 3DDh reads back after 55h, and after AAh. *)
Definition colorplus_first (st : state) : Z :=
  byte (port_in hw 0x3DD (nreads 0x3DD (io st))
          (0x55 :: written 0x3DD (io st))).

Definition colorplus_second (st : state) : Z :=
  byte (port_in hw 0x3DD (S (nreads 0x3DD (io st)))
          (0xAA :: 0x55 :: written 0x3DD (io st))).

(** Step 1 did not classify: the query failed, or reported a code
    outside the table. *)
Definition video_state_unmatched (regs0 : REGS) : Prop :=
  (if al (video_state_reply regs0) =? 0x1A
   then display_code (bl (video_state_reply regs0)) else None) = None.

(** The three checks of the PGA probe. *)
Definition pga_accepts : Prop :=
  pga_status <> 0xFF /\ pga_command <> 0xFF /\ pga_status <= 0x0F.

(** Steps 1 to 3 did not classify. *)
Definition reaches_equipment (regs0 : REGS) : Prop :=
  video_state_unmatched regs0 /\
  bl (ega_reply regs0) = 0x10 /\
  ~ pga_accepts.

(** Bit 7 of port 3BAh first differs from its first sample at the
    [j]-th later read. *)
Definition first_toggle (st : state) (j : nat) : Prop :=
  (1 <= j)%nat /\
  (forall k, (1 <= k < j)%nat ->
     Z.land (retrace_sample st k) 0x80 = Z.land (retrace_sample st 0) 0x80) /\
  Z.land (retrace_sample st j) 0x80 <> Z.land (retrace_sample st 0) 0x80.

(** Bit 7 of port 3BAh never moves. *)
Definition retrace_steady (st : state) : Prop :=
  forall k,
    Z.land (retrace_sample st k) 0x80 = Z.land (retrace_sample st 0) 0x80.

(** Both patterns of the ColorPlus probe read back. *)
Definition colorplus_round_trips (st : state) : Prop :=
  colorplus_first st = 0x55 /\ colorplus_second st = 0xAA.

End Detect.

(** The card-ID field of a status byte of port 3BAh (line 194). *)
Definition card_id (v : Z) : Z := Z.land (Z.shiftr v 4) 0x07.

(** The classification by card ID (lines 194-209): type, mono flag and
    buffer. *)
Definition hercules_kind (id : Z) : adapter * Z * farptr :=
  if id =? 1 then (VID_HERCPLUS, 1, MONO_BASE)
  else if id =? 5 then (VID_INCOLOR, 0, MONO_BASE)
  else (VID_HERCULES, 1, MONO_BASE).

(** The descriptor [vid_init] leaves behind when it returns [r]: either
    the InColor exception, reached through a status byte with ID 5, or
    a type whose buffer follows its mono flag. *)
Definition descriptor_ok (r : adapter) (st : state) : Prop :=
  vid_adapter_type st = r
  /\ ((r = VID_INCOLOR /\ vid_mono st = 0 /\ vid_base st = MONO_BASE
       /\ exists v rest, io st = PortIn 0x3BA v :: rest /\ card_id v = 5)
      \/ (r <> VID_INCOLOR
          /\ ((vid_mono st = 1 /\ vid_base st = MONO_BASE)
              \/ (vid_mono st = 0 /\ vid_base st = COLOR_BASE)))).

(** [vid_init] returns [r] in state [st']. *)
Definition returns (hw : machine) (regs0 : REGS) (st : state)
  (r : adapter) (st' : state) : Prop :=
  exists fuel, vid_init hw fuel regs0 st = Some (r, st').

(** [vid_init] never returns. *)
Definition diverges (hw : machine) (regs0 : REGS) (st : state) : Prop :=
  forall fuel, vid_init hw fuel regs0 st = None.

(** The state a run of [vid_init] leaves behind; the start state when
    it does not return within [fuel]. *)
Definition final_state (hw : machine) (fuel : nat) (regs0 : REGS)
  (st : state) : state :=
  match vid_init hw fuel regs0 st with
  | Some (_, st') => st'
  | None => st
  end.

(** ** Sample machines *)

Definition no_regs : REGS := mkREGS 0 0 0 0 0 0 0.

(** The statics before [vid_init] has run: zero-initialised. *)
Definition boot : state := mkState 0 VID_MDA 0 [] [].

(** A descriptor as [vid_set] leaves it, over an empty history. *)
Definition descriptor (type : adapter) (mono : Z) : state :=
  mkState (if truthy mono then MONO_BASE else COLOR_BASE) type mono [] [].

(** A PC whose video BIOS answers the state query with [video] (or not
    at all), the EGA query with [ega], and whose equipment word is
    [equip]. *)
Definition pc (video ega : option Z) (equip : Z) (rom : farptr -> Z)
  (ports : Z -> nat -> list Z -> Z) : machine :=
  mkMachine
    (fun n r =>
       if n =? 0x11 then
         mkREGS equip (bx r) (cx r) (dx r) (si r) (di r) (cflag r)
       else if ah r =? 0x1A then
         match video with
         | Some code => set_bl code (set_al 0x1A r)
         | None => r
         end
       else if ah r =? 0x12 then
         match ega with
         | Some mono =>
             mkREGS (ax r) (Z.shiftl mono 8) (cx r) (dx r) (si r) (di r) (cflag r)
         | None => r
         end
       else r)
    rom ports.

Definition empty_rom : farptr -> Z := fun _ => 0xFF.

Definition pga_rom : farptr -> Z :=
  fun p => if (p =? 0xC6000300) || (p =? 0xC6000000) then 0x00 else 0xFF.

Definition floating_bus : Z -> nat -> list Z -> Z := fun _ _ _ => 0xFF.

(** Port 3BAh of a Hercules card with ID [id] whose retrace bit rises
    at read number [rise]. *)
Definition hercules_ports (id : Z) (rise : nat) : Z -> nat -> list Z -> Z :=
  fun port k _ =>
    if port =? 0x3BA then
      Z.lor (Z.shiftl id 4) (if (rise <=? k)%nat then 0x80 else 0x00)
    else 0xFF.

(** Port 3BAh of an MDA: the status never shows a retrace bit moving. *)
Definition mda_ports : Z -> nat -> list Z -> Z :=
  fun port _ _ => if port =? 0x3BA then 0xF9 else 0xFF.

(** Port 3DDh as a register: it reads back what was last written. *)
Definition latched_ports : Z -> nat -> list Z -> Z :=
  fun port _ ws =>
    if port =? 0x3DD then match ws with v :: _ => v | [] => 0x00 end
    else 0xFF.

Definition vga_mono_pc : machine := pc (Some 0x07) None 0x0020 empty_rom floating_bus.
Definition ega_pc : machine := pc None (Some 0) 0x0020 empty_rom floating_bus.
Definition pga_pc : machine := pc None None 0x0020 pga_rom floating_bus.
Definition mda_pc : machine := pc None None 0x0030 empty_rom mda_ports.
Definition incolor_pc : machine := pc None None 0x0030 empty_rom (hercules_ports 5 3).
Definition colorplus_pc : machine := pc None None 0x0020 empty_rom latched_ports.
Definition cga_pc : machine := pc None None 0x0020 empty_rom floating_bus.

(** * The rest of the library *)

(** ** Reading the buffer back *)

(** The newest store to [p] in a trace, if the trace has one. *)
Fixpoint lookup_store (p : farptr) (l : list (farptr * Z)) : option Z :=
  match l with
  | [] => None
  | (q, v) :: l' => if q =? p then Some v else lookup_store p l'
  end.

(** The byte at [p] as far as the library wrote it: [None] is a byte
    still as the hardware had it. *)
Definition load (st : state) (p : farptr) : option Z :=
  lookup_store p (stores st).

(** The offset half of a far pointer. *)
Definition far_off (p : farptr) : Z := Z.land p 0xFFFF.

Section Screen.
Context {hdr : video_h}.

(** The cell number [row * VID_COLS + col], without the [int] wrap. *)
Definition cell_index (row col : Z) : Z := row * VID_COLS + col.

(** Character and attribute of a cell, as far as written. *)
Definition read_cell (st : state) (row col : Z) : option (Z * Z) :=
  match load st (cell_ptr st row col),
        load st (far_add (cell_ptr st row col) 1) with
  | Some c, Some a => Some (c, a)
  | _, _ => None
  end.

Definition on_screen (row col : Z) : Prop :=
  0 <= row < VID_ROWS /\ 0 <= col < VID_COLS.

(** A screen whose cell count is an [int]: its buffer fits one segment
    and [VID_ROWS * VID_COLS] does not wrap. *)
Definition screen_fits : Prop :=
  0 < VID_COLS /\ 0 < VID_ROWS /\ VID_ROWS * VID_COLS <= max_int.

(** The cells of a run along a row, by their coordinates: character
    [k] sits [k] columns to the right of (row, col). *)
Fixpoint row_run (st : state) (row col : Z) (cs : list Z) (a : Z) : list cell :=
  match cs with
  | [] => []
  | c :: cs' =>
      mkCell (cell_ptr st row col) (byte c) (byte a)
      :: row_run st row (col + 1) cs' a
  end.

(** ** More output primitives (VIDEO.C lines 312-325, 357-365) *)

(** The loop of [vid_puts]: [while ( *s ) { ... p += 2; }]. *)
Fixpoint puts_loop (a : Z) (s : string) (p : farptr) (st : state) : state :=
  match s with
  | EmptyString => st
  | String _ s' =>
      if truthy (deref s)
      then puts_loop a s' (far_add p 2) (put_cell p (deref s) a st)
      else st
  end.

Definition vid_puts (row col : Z) (s : string) (attr : Z) (st : state) : state :=
  let a := out_attr st attr in
  let p := cell_ptr st row col in
  puts_loop a s p st.

Definition vid_clear (attr : Z) (st : state) : state :=
  vid_fill 0 0 32 attr (wrap16 (VID_ROWS * VID_COLS)) st.

Definition vid_clear_rows (start_row end_row attr : Z) (st : state) : state :=
  vid_fill start_row 0 32 attr
    (wrap16 (wrap16 (wrap16 (end_row - start_row) + 1) * VID_COLS)) st.

(** ** Hexadecimal output (VIDEO.C lines 40, 437-453) *)

Definition hex_digits : string := "0123456789ABCDEF".

(** [s[i]] for an index inside the array. *)
Definition char_at (s : string) (i : Z) : Z :=
  match String.get (Z.to_nat i) s with
  | Some c => Z.of_N (N_of_ascii c)
  | None => 0
  end.

Definition vid_put_hex_byte (row col val attr : Z) (st : state) : state :=
  let st := vid_putc row col
              (char_at hex_digits (Z.land (Z.shiftr val 4) 0x0F)) attr st in
  vid_putc row (wrap16 (col + 1)) (char_at hex_digits (Z.land val 0x0F)) attr st.

(** [val] is an [unsigned int]. *)
Definition vid_put_hex_word (row col val attr : Z) (st : state) : state :=
  let val := val mod 65536 in
  let st := vid_put_hex_byte row col (Z.land (Z.shiftr val 8) 0xFF) attr st in
  vid_put_hex_byte row (wrap16 (col + 2)) (Z.land val 0xFF) attr st.

(** [val] is a [long]; each half is cast to [unsigned int]. *)
Definition vid_put_hex_long (row col val attr : Z) (st : state) : state :=
  let st := vid_put_hex_word row col
              (Z.land (Z.shiftr val 16) 0xFFFF) attr st in
  vid_put_hex_word row (wrap16 (col + 4)) (Z.land val 0xFFFF) attr st.

(** The [n] hexadecimal digits of [v], most significant first, as
    character codes. *)
Fixpoint hex_text (n : nat) (v : Z) : list Z :=
  match n with
  | O => []
  | S n' => hex_text n' (v / 16) ++ [char_at hex_digits (v mod 16)]
  end.

(** Reading hexadecimal digits, upper case only. *)
Definition hex_value (c : Z) : option Z :=
  if (48 <=? c) && (c <=? 57) then Some (c - 48)
  else if (65 <=? c) && (c <=? 70) then Some (c - 55)
  else None.

Fixpoint hex_number_from (acc : Z) (cs : list Z) : option Z :=
  match cs with
  | [] => Some acc
  | c :: cs' =>
      match hex_value c with
      | Some v => hex_number_from (16 * acc + v) cs'
      | None => None
      end
  end.

Definition hex_number (cs : list Z) : option Z := hex_number_from 0 cs.

(** ** The outline of a box *)

(** (r, c) lies on the outline of the rectangle with corners (r1, c1)
    and (r2, c2). *)
Definition on_outline (r1 c1 r2 c2 r c : Z) : Prop :=
  r1 <= r <= r2 /\ c1 <= c <= c2 /\ (r = r1 \/ r = r2 \/ c = c1 \/ c = c2).

(** The glyph a single-line box shows at a place of its outline. *)
Definition outline_glyph (r1 c1 r2 c2 r c : Z) : Z :=
  if (r =? r1) && (c =? c1) then VID_BOX_TL
  else if (r =? r1) && (c =? c2) then VID_BOX_TR
  else if (r =? r2) && (c =? c1) then VID_BOX_BL
  else if (r =? r2) && (c =? c2) then VID_BOX_BR
  else if (r =? r1) || (r =? r2) then VID_BOX_H
  else VID_BOX_V.

(** The cell a box with attribute byte [a] puts at (r, c). *)
Definition outline_cell (st : state) (r1 c1 r2 c2 a r c : Z) : cell :=
  mkCell (cell_ptr st r c) (byte (outline_glyph r1 c1 r2 c2 r c)) a.

End Screen.

(** ** Detection: what a run leaves alone *)

(** From [st] to [st'] no far-memory store was made, no port other than
    3DDh was written and no port other than 3BAh and 3DDh was read. *)
Definition quiet (st st' : state) : Prop :=
  stores st' = stores st
  /\ (forall p, p <> 0x3DD -> written p (io st') = written p (io st))
  /\ (forall p, p <> 0x3BA -> p <> 0x3DD ->
        nreads p (io st') = nreads p (io st)).

(** The display codes [vid_init] knows (the [case] labels of lines
    109-140). *)
Definition display_codes : list Z :=
  [0x01; 0x02; 0x04; 0x05; 0x06; 0x07; 0x08; 0x0A; 0x0B; 0x0C].

(** Step 1 returns [type] with the descriptor ([mono], [base]) when the
    video-state query reports display code [code]. *)
Definition decides_at (hw : machine) (fuel : nat) (regs0 : REGS) (st : state)
  (code : Z) (type : adapter) (mono : Z) (base : farptr) : Prop :=
  bl (video_state_reply hw regs0) = code ->
  vid_init hw fuel regs0 st = Some (type, set_descriptor type mono base st).

(** Reduce the bookkeeping of the port log, leaving the answers of the
    machine in place. *)
Ltac port_step :=
  cbn [io nreads written Z.eqb Pos.eqb
       vid_base vid_mono vid_adapter_type stores].

(** * Properties *)

(** ** Integers and bytes *)

Lemma wrap16_range z : in_range (wrap16 z).
Proof.
  unfold in_range, wrap16, min_int, max_int.
  pose proof (Z.mod_pos_bound (z + 32768) 65536). lia.
Qed.

Lemma wrap16_small z : in_range z -> wrap16 z = z.
Proof.
  unfold in_range, wrap16, min_int, max_int. intros Hz.
  rewrite Z.mod_small; lia.
Qed.

Lemma wrap16_succ_max : wrap16 (max_int + 1) = min_int.
Proof. reflexivity. Qed.

(** No [int] reaches the bound of the retrace poll. *)
Lemma int_below_ceiling i : in_range i -> (i <? 32768) = true.
Proof. unfold in_range, min_int, max_int. intros Hi. apply Z.ltb_lt. lia. Qed.

Lemma byte_range z : 0 <= byte z < 256.
Proof.
  unfold byte. change 0xFF with (Z.ones 8). rewrite Z.land_ones by lia.
  apply Z.mod_pos_bound. lia.
Qed.

Lemma byte_small z : 0 <= z < 256 -> byte z = z.
Proof.
  intros Hz. unfold byte. change 0xFF with (Z.ones 8).
  rewrite Z.land_ones by lia. apply Z.mod_small. exact Hz.
Qed.

Lemma all_bytes_complete z : 0 <= z < 256 -> In z all_bytes.
Proof.
  intros Hz. unfold all_bytes. apply in_map_iff.
  exists (Z.to_nat z). split; [lia|]. apply in_seq. lia.
Qed.

(** A boolean check run over the 256 bytes settles a property of every
    byte. *)
Lemma for_all_bytes (P : Z -> bool) :
  forallb P all_bytes = true -> forall z, 0 <= z < 256 -> P z = true.
Proof.
  intros Hall z Hz. rewrite forallb_forall in Hall.
  apply Hall, all_bytes_complete, Hz.
Qed.

(** Masking with one bit. *)
Lemma land_bit a n :
  0 <= n -> Z.land a (2 ^ n) = if Z.testbit a n then 2 ^ n else 0.
Proof.
  intros Hn. apply Z.bits_inj'. intros m Hm.
  rewrite Z.land_spec, Z.pow2_bits_eqb by lia.
  destruct (Z.eqb_spec n m) as [->|Hne].
  - destruct (Z.testbit a m) eqn:E.
    + rewrite Z.pow2_bits_true by lia. reflexivity.
    + rewrite Z.bits_0. reflexivity.
  - rewrite andb_false_r.
    destruct (Z.testbit a n).
    + rewrite Z.pow2_bits_false by lia. reflexivity.
    + rewrite Z.bits_0. reflexivity.
Qed.

(** ** The attribute mapper *)

Lemma vid_map_attr_color st attr :
  vid_mono st = 0 -> vid_map_attr st attr = attr.
Proof. intros H. unfold vid_map_attr. rewrite H. reflexivity. Qed.

(** The fields the mapper cuts out of an attribute are the ones the
    contract names, for any value of [attr]. *)
Lemma attr_fields attr :
  Z.land attr 0x80 = (if Z.testbit attr 7 then 0x80 else 0)
  /\ Z.land attr 0x0F = attr mod 16
  /\ Z.land (Z.shiftr attr 4) 0x07 = (attr / 16) mod 8
  /\ truthy (Z.land (Z.land attr 0x0F) 0x08) = Z.testbit (attr mod 16) 3.
Proof.
  assert (Hfg : Z.land attr 0x0F = attr mod 16).
  { change 0x0F with (Z.ones 4). rewrite Z.land_ones by lia. reflexivity. }
  repeat split.
  - exact (land_bit attr 7 ltac:(lia)).
  - exact Hfg.
  - change 0x07 with (Z.ones 3). rewrite Z.land_ones, Z.shiftr_div_pow2 by lia.
    reflexivity.
  - rewrite Hfg. change 0x08 with (2 ^ 3). rewrite land_bit by lia.
    destruct (Z.testbit (attr mod 16) 3); reflexivity.
Qed.

Lemma vid_map_attr_refines st attr :
  vid_map_attr st attr = map_attr_contract (truthy (vid_mono st)) attr.
Proof.
  unfold vid_map_attr, map_attr_contract.
  destruct (truthy (vid_mono st)); [|reflexivity].
  destruct (attr_fields attr) as (Hblink & Hfg & Hbg & Hbold).
  cbn [negb]. cbv zeta. rewrite Hbold, Hblink, Hfg, Hbg. reflexivity.
Qed.

(** The mapper looks at the mono flag only. *)
Lemma vid_map_attr_mono st attr :
  truthy (vid_mono st) = true ->
  vid_map_attr st attr = vid_map_attr (descriptor VID_MDA 1) attr.
Proof. intros H. unfold vid_map_attr. rewrite H. reflexivity. Qed.

(** C1. For every 8-bit attribute, [vid_map_attr] meets its contract:
    with the mono flag clear it returns the attribute unchanged; with
    the flag set it returns what the five priority rules on blink bit,
    foreground nibble and background field prescribe, the blink bit
    OR-ed back in. *)
Theorem vid_map_attr_contract (st : state) (attr : Z) :
  0 <= attr < 256 ->
  vid_map_attr st attr = map_attr_contract (truthy (vid_mono st)) attr
  /\ (truthy (vid_mono st) = false -> vid_map_attr st attr = attr)
  /\ 0 <= vid_map_attr st attr < 256.
Proof.
  intros Hattr. split; [apply vid_map_attr_refines|]. split.
  - intros Hmono. rewrite vid_map_attr_refines, Hmono. reflexivity.
  - destruct (truthy (vid_mono st)) eqn:Hmono.
    + rewrite (vid_map_attr_mono st) by exact Hmono.
      set (f := vid_map_attr (descriptor VID_MDA 1)).
      assert (H := for_all_bytes (fun a => (0 <=? f a) && (f a <? 256))).
      specialize (H ltac:(vm_compute; reflexivity) attr Hattr). cbv beta in H.
      apply andb_prop in H. destruct H as [H0 H1].
      apply Z.leb_le in H0. apply Z.ltb_lt in H1. split; assumption.
    + unfold vid_map_attr. rewrite Hmono. exact Hattr.
Qed.

Lemma vid_map_attr_contract_witness :
  vid_map_attr (descriptor VID_MDA 1) 0x9E = 0xF0
  /\ vid_map_attr (descriptor VID_CGA 0) 0x9E = 0x9E.
Proof.
  assert (Hb : 0 <= 0x9E < 256) by lia.
  pose proof (vid_map_attr_contract (descriptor VID_MDA 1) 0x9E Hb) as [H1 _].
  pose proof (vid_map_attr_contract (descriptor VID_CGA 0) 0x9E Hb) as [_ [H2 _]].
  split.
  - rewrite H1. reflexivity.
  - apply H2. reflexivity.
Defined.

(** C4. With the mono flag set, mapping an 8-bit attribute twice gives
    what mapping it once gives, every result lies in
    {00,01,07,0F,70,80,81,87,8F,F0} (hex), and each of these ten values
    is mapped to itself, so the range is that set. *)
Theorem vid_map_attr_idempotent (st : state) (attr : Z) :
  truthy (vid_mono st) = true ->
  0 <= attr < 256 ->
  vid_map_attr st (vid_map_attr st attr) = vid_map_attr st attr
  /\ In (vid_map_attr st attr) mono_outputs
  /\ (In attr mono_outputs -> vid_map_attr st attr = attr).
Proof.
  intros Hmono Hattr.
  rewrite !(vid_map_attr_mono st) by exact Hmono.
  set (f := vid_map_attr (descriptor VID_MDA 1)).
  assert (H := for_all_bytes (fun a =>
    (f (f a) =? f a)
    && existsb (Z.eqb (f a)) mono_outputs
    && (negb (existsb (Z.eqb a) mono_outputs) || (f a =? a)))).
  specialize (H ltac:(vm_compute; reflexivity) attr Hattr). cbv beta in H.
  apply andb_prop in H. destruct H as [H Hfix].
  apply andb_prop in H. destruct H as [Hidem Hin].
  split; [apply Z.eqb_eq, Hidem|]. split.
  - apply existsb_exists in Hin. destruct Hin as (v & Hv & Heq).
    apply Z.eqb_eq in Heq. rewrite Heq. exact Hv.
  - intros Hmem. apply orb_prop in Hfix. destruct Hfix as [Hno|Hyes].
    + apply negb_true_iff in Hno.
      assert (Hex : existsb (Z.eqb attr) mono_outputs = true).
      { apply existsb_exists. exists attr. split; [exact Hmem|apply Z.eqb_refl]. }
      congruence.
    + apply Z.eqb_eq, Hyes.
Qed.

Lemma vid_map_attr_idempotent_witness :
  vid_map_attr (descriptor VID_HERCULES 1)
    (vid_map_attr (descriptor VID_HERCULES 1) 0x1E)
  = vid_map_attr (descriptor VID_HERCULES 1) 0x1E
  /\ In (vid_map_attr (descriptor VID_HERCULES 1) 0x1E) mono_outputs.
Proof.
  assert (Hb : 0 <= 0x1E < 256) by lia.
  destruct (vid_map_attr_idempotent (descriptor VID_HERCULES 1) 0x1E
              eq_refl Hb) as (H1 & H2 & _).
  split; [exact H1 | exact H2].
Defined.

(** ** The store trace *)

Lemma cells_of_bytes cs : cells_of (flat_map cell_bytes cs) = cs.
Proof.
  induction cs as [|[p c a] cs IH]; [reflexivity|].
  cbn. rewrite IH. reflexivity.
Qed.

Lemma writes_refl st : writes st st [].
Proof. repeat split. Qed.

Lemma writes_trans st1 st2 st3 cs cs' :
  writes st1 st2 cs -> writes st2 st3 cs' -> writes st1 st3 (cs ++ cs').
Proof.
  intros (Hs & Hb & Hm & Ht & Hio) (Hs' & Hb' & Hm' & Ht' & Hio').
  repeat split; try congruence.
  rewrite Hs', Hs, flat_map_app, rev_app_distr, app_assoc. reflexivity.
Qed.

Lemma writes_new_stores st st' cs :
  writes st st' cs -> new_stores st st' = flat_map cell_bytes cs.
Proof.
  intros (Hs & _). unfold new_stores. rewrite Hs, length_app.
  replace (length (rev (flat_map cell_bytes cs)) + length (stores st)
           - length (stores st))%nat
    with (length (rev (flat_map cell_bytes cs)) + 0)%nat by lia.
  rewrite firstn_app_2, firstn_O, app_nil_r. apply rev_involutive.
Qed.

Lemma writes_cells_written st st' cs :
  writes st st' cs -> cells_written st st' = cs.
Proof.
  intros H. unfold cells_written.
  rewrite (writes_new_stores _ _ _ H). apply cells_of_bytes.
Qed.

Section OutputFacts.
Context {hdr : video_h}.

Lemma writes_cell_ptr st st' cs row col :
  writes st st' cs -> cell_ptr st' row col = cell_ptr st row col.
Proof. intros (_ & Hb & _). unfold cell_ptr. rewrite Hb. reflexivity. Qed.

Lemma writes_out_attr st st' cs attr :
  writes st st' cs -> out_attr st' attr = out_attr st attr.
Proof.
  intros (_ & _ & Hm & _). unfold out_attr, vid_map_attr.
  rewrite Hm. reflexivity.
Qed.

Lemma put_cell_writes p ch a st :
  writes st (put_cell p ch a st) [mkCell p (byte ch) (byte a)].
Proof. repeat split. Qed.

Lemma vid_putc_writes row col ch attr st :
  writes st (vid_putc row col ch attr st)
    [mkCell (cell_ptr st row col) (byte ch) (byte (out_attr st attr))].
Proof. apply put_cell_writes. Qed.

(** The loop of [vid_fill]. *)
Lemma fill_loop_writes ch a k : forall i p st,
  writes st
    (snd (for_up k i (fun _ '(p, st) => (far_add p 2, put_cell p ch a st))
            (p, st)))
    (cell_run p (repeat ch k) a).
Proof.
  induction k as [|k IH]; intros i p st.
  - apply writes_refl.
  - cbn [for_up repeat cell_run].
    change (mkCell p (byte ch) (byte a) :: cell_run (far_add p 2) (repeat ch k) a)
      with ([mkCell p (byte ch) (byte a)] ++ cell_run (far_add p 2) (repeat ch k) a).
    eapply writes_trans; [apply put_cell_writes | apply IH].
Qed.

Lemma vid_fill_writes row col ch attr count st :
  writes st (vid_fill row col ch attr count st)
    (cell_run (cell_ptr st row col) (repeat ch (Z.to_nat count))
       (out_attr st attr)).
Proof. apply fill_loop_writes. Qed.

Lemma vid_hline_writes row col n attr st :
  writes st (vid_hline row col n attr st)
    (cell_run (cell_ptr st row col) (repeat VID_BOX_H (Z.to_nat n))
       (out_attr st attr)).
Proof. apply vid_fill_writes. Qed.

Lemma col_run_same_base st st' cs row col i k ch a :
  writes st st' cs ->
  col_run st' row col i k ch a = col_run st row col i k ch a.
Proof.
  intros H. revert i. induction k as [|k IH]; intros i; [reflexivity|].
  cbn [col_run]. rewrite IH, (writes_cell_ptr _ _ _ _ _ H). reflexivity.
Qed.

(** The loop of [vid_vline]. *)
Lemma vline_loop_writes row col attr k : forall i st,
  writes st
    (for_up k i (fun i st => vid_putc (wrap16 (row + i)) col VID_BOX_V attr st) st)
    (col_run st row col i k VID_BOX_V (out_attr st attr)).
Proof.
  induction k as [|k IH]; intros i st.
  - apply writes_refl.
  - cbn [for_up col_run].
    pose proof (vid_putc_writes (wrap16 (row + i)) col VID_BOX_V attr st) as H1.
    specialize (IH (i + 1) (vid_putc (wrap16 (row + i)) col VID_BOX_V attr st)).
    rewrite (col_run_same_base _ _ _ _ _ _ _ _ _ H1) in IH.
    rewrite (writes_out_attr _ _ _ _ H1) in IH.
    exact (writes_trans _ _ _ _ _ H1 IH).
Qed.

Lemma vid_vline_writes row col n attr st :
  writes st (vid_vline row col n attr st)
    (col_run st row col 0 (Z.to_nat n) VID_BOX_V (out_attr st attr)).
Proof. apply vline_loop_writes. Qed.

Lemma cell_run_length p cs a : length (cell_run p cs a) = length cs.
Proof.
  revert p. induction cs as [|c cs IH]; intros p; [reflexivity|].
  cbn. rewrite IH. reflexivity.
Qed.

Lemma col_run_length st row col i k ch a :
  length (col_run st row col i k ch a) = k.
Proof.
  revert i. induction k as [|k IH]; intros i; [reflexivity|].
  cbn. rewrite IH. reflexivity.
Qed.

End OutputFacts.

(** ** Fixed-width strings *)

Lemma fixed_text_nil k : fixed_text [] (S k) = 32 :: fixed_text [] k.
Proof.
  unfold fixed_text. rewrite !firstn_nil. cbn [app length].
  rewrite !Nat.sub_0_r. reflexivity.
Qed.

Lemma fixed_text_cons c cs k : fixed_text (c :: cs) (S k) = c :: fixed_text cs k.
Proof. reflexivity. Qed.

Lemma fixed_text_length cs n : length (fixed_text cs n) = n.
Proof.
  unfold fixed_text. rewrite length_app, length_firstn, repeat_length. lia.
Qed.

Lemma cell_run_attr p cs a :
  Forall (fun c => cell_attr c = byte a) (cell_run p cs a).
Proof.
  revert p. induction cs as [|c cs IH]; intros p; constructor.
  - reflexivity.
  - apply IH.
Qed.

(** Off a mono adapter the mapper is the identity, so the attribute a
    primitive stores is the mapped one in either case. *)
Lemma out_attr_mapped st attr : out_attr st attr = vid_map_attr st attr.
Proof.
  unfold out_attr, vid_map_attr. destruct (truthy (vid_mono st)); reflexivity.
Qed.

Section StringFacts.
Context {hdr : video_h}.

(** The loop of [vid_putsn]. *)
Lemma putsn_loop_writes a k : forall i p s st,
  writes st
    (snd (for_up k i
            (fun _ '(p, s, st) =>
               let '(c, s') :=
                 if truthy (deref s) then (deref s, advance s) else (32, s) in
               (far_add p 2, s', put_cell p c a st))
            (p, s, st)))
    (cell_run p (fixed_text (c_text s) k) a).
Proof.
  induction k as [|k IH]; intros i p s st.
  - apply writes_refl.
  - cbn [for_up].
    destruct s as [|c s']; cbn [deref advance c_text].
    + cbn [truthy Z.eqb negb]. rewrite fixed_text_nil. cbn [cell_run].
      specialize (IH (i + 1) (far_add p 2) EmptyString (put_cell p 32 a st)).
      exact (writes_trans _ _ _ [_] _ (put_cell_writes p 32 a st) IH).
    + unfold truthy. destruct (Z.of_N (N_of_ascii c) =? 0) eqn:E; cbn [negb].
      * rewrite fixed_text_nil. cbn [cell_run].
        specialize (IH (i + 1) (far_add p 2) (String c s') (put_cell p 32 a st)).
        cbn [c_text] in IH. rewrite E in IH.
        exact (writes_trans _ _ _ [_] _ (put_cell_writes p 32 a st) IH).
      * rewrite fixed_text_cons. cbn [cell_run].
        specialize (IH (i + 1) (far_add p 2) s'
                      (put_cell p (Z.of_N (N_of_ascii c)) a st)).
        exact (writes_trans _ _ _ [_] _ (put_cell_writes p _ a st) IH).
Qed.

Lemma vid_putsn_writes row col s n attr st :
  writes st (vid_putsn row col s n attr st)
    (cell_run (cell_ptr st row col) (fixed_text (c_text s) (Z.to_nat n))
       (out_attr st attr)).
Proof. apply putsn_loop_writes. Qed.

(** The cells of [vid_putsn] as a run from the pointer of (row, col):
    the text cut or padded to [n], each cell with the mapped
    attribute as its value. *)
Lemma vid_putsn_cells (row col : Z) (s : string) (n attr : Z)
  (st : state) :
  let cs := cells_written st (vid_putsn row col s n attr st) in
  let p := cell_ptr st row col in
  let a := byte (vid_map_attr st attr) in
  cs = cell_run p (fixed_text (c_text s) (Z.to_nat n)) (vid_map_attr st attr)
  /\ length cs = Z.to_nat n
  /\ Forall (fun c => cell_attr c = a) cs
  /\ cells_written st (vid_putsn row col "AB" 5 attr st)
     = [ mkCell p 65 a;
         mkCell (far_add p 2) 66 a;
         mkCell (far_add (far_add p 2) 2) 32 a;
         mkCell (far_add (far_add (far_add p 2) 2) 2) 32 a;
         mkCell (far_add (far_add (far_add (far_add p 2) 2) 2) 2) 32 a ].
Proof.
  cbv zeta.
  rewrite (writes_cells_written _ _ _ (vid_putsn_writes row col s n attr st)).
  rewrite (writes_cells_written _ _ _ (vid_putsn_writes row col "AB" 5 attr st)).
  rewrite out_attr_mapped. repeat split.
  - rewrite cell_run_length. apply fixed_text_length.
  - apply cell_run_attr.
Qed.

End StringFacts.

(** ** Boxes *)

Section BoxFacts.
Context {hdr : video_h}.

Lemma box_corners_writes r1 c1 r2 c2 attr st :
  writes st (box_corners r1 c1 r2 c2 attr st) (corner_list r1 c1 r2 c2 attr st).
Proof.
  unfold box_corners, corner_list.
  pose proof (vid_putc_writes r1 c1 VID_BOX_TL attr st) as H1.
  set (s1 := vid_putc r1 c1 VID_BOX_TL attr st) in *.
  pose proof (vid_putc_writes r1 c2 VID_BOX_TR attr s1) as H2.
  rewrite (writes_cell_ptr _ _ _ _ _ H1), (writes_out_attr _ _ _ _ H1) in H2.
  pose proof (writes_trans _ _ _ _ _ H1 H2) as H12. clear H1 H2.
  set (s2 := vid_putc r1 c2 VID_BOX_TR attr s1) in *.
  pose proof (vid_putc_writes r2 c1 VID_BOX_BL attr s2) as H3.
  rewrite (writes_cell_ptr _ _ _ _ _ H12), (writes_out_attr _ _ _ _ H12) in H3.
  pose proof (writes_trans _ _ _ _ _ H12 H3) as H123. clear H12 H3.
  set (s3 := vid_putc r2 c1 VID_BOX_BL attr s2) in *.
  pose proof (vid_putc_writes r2 c2 VID_BOX_BR attr s3) as H4.
  rewrite (writes_cell_ptr _ _ _ _ _ H123), (writes_out_attr _ _ _ _ H123) in H4.
  exact (writes_trans _ _ _ _ _ H123 H4).
Qed.

Lemma box_hedges_writes r1 c1 r2 c2 attr st :
  writes st (box_hedges r1 c1 r2 c2 attr st) (hedge_list r1 c1 r2 c2 attr st).
Proof.
  unfold box_hedges, hedge_list, box_hlen. cbv zeta.
  set (n := wrap16 (wrap16 (c2 - c1) - 1)).
  pose proof (vid_hline_writes r1 (wrap16 (c1 + 1)) n attr st) as H1.
  set (s1 := vid_hline r1 (wrap16 (c1 + 1)) n attr st) in *.
  pose proof (vid_hline_writes r2 (wrap16 (c1 + 1)) n attr s1) as H2.
  rewrite (writes_cell_ptr _ _ _ _ _ H1), (writes_out_attr _ _ _ _ H1) in H2.
  exact (writes_trans _ _ _ _ _ H1 H2).
Qed.

Lemma box_vedges_writes r1 c1 r2 c2 attr st :
  writes st (box_vedges r1 c1 r2 c2 attr st) (vedge_list r1 c1 r2 c2 attr st).
Proof.
  unfold box_vedges, vedge_list, box_vlen. cbv zeta.
  set (n := wrap16 (wrap16 (r2 - r1) - 1)).
  pose proof (vid_vline_writes (wrap16 (r1 + 1)) c1 n attr st) as H1.
  set (s1 := vid_vline (wrap16 (r1 + 1)) c1 n attr st) in *.
  pose proof (vid_vline_writes (wrap16 (r1 + 1)) c2 n attr s1) as H2.
  rewrite (col_run_same_base _ _ _ _ _ _ _ _ _ H1),
          (writes_out_attr _ _ _ _ H1) in H2.
  exact (writes_trans _ _ _ _ _ H1 H2).
Qed.

(** What the three groups of statements of [vid_box] write, for any
    arguments. *)
Lemma box_parts r1 c1 r2 c2 attr st :
  box_corner_cells r1 c1 r2 c2 attr st = corner_list r1 c1 r2 c2 attr st
  /\ box_hedge_cells r1 c1 r2 c2 attr st = hedge_list r1 c1 r2 c2 attr st
  /\ box_vedge_cells r1 c1 r2 c2 attr st = vedge_list r1 c1 r2 c2 attr st
  /\ cells_written st (vid_box r1 c1 r2 c2 attr st)
     = corner_list r1 c1 r2 c2 attr st
       ++ hedge_list r1 c1 r2 c2 attr st
       ++ vedge_list r1 c1 r2 c2 attr st.
Proof.
  pose proof (box_corners_writes r1 c1 r2 c2 attr st) as Hc.
  set (s1 := box_corners r1 c1 r2 c2 attr st) in *.
  pose proof (box_hedges_writes r1 c1 r2 c2 attr s1) as Hh.
  set (s2 := box_hedges r1 c1 r2 c2 attr s1) in *.
  pose proof (box_vedges_writes r1 c1 r2 c2 attr s2) as Hv.
  pose proof (writes_trans _ _ _ _ _ Hc Hh) as Hch.
  assert (Eh : hedge_list r1 c1 r2 c2 attr s1 = hedge_list r1 c1 r2 c2 attr st).
  { unfold hedge_list.
    rewrite !(writes_cell_ptr _ _ _ _ _ Hc), (writes_out_attr _ _ _ _ Hc).
    reflexivity. }
  assert (Ev : vedge_list r1 c1 r2 c2 attr s2 = vedge_list r1 c1 r2 c2 attr st).
  { unfold vedge_list.
    rewrite !(col_run_same_base _ _ _ _ _ _ _ _ _ Hch),
            (writes_out_attr _ _ _ _ Hch).
    reflexivity. }
  subst s1 s2. repeat split.
  - exact (writes_cells_written _ _ _ Hc).
  - unfold box_hedge_cells. cbv zeta.
    rewrite (writes_cells_written _ _ _ Hh). exact Eh.
  - unfold box_vedge_cells. cbv zeta.
    rewrite (writes_cells_written _ _ _ Hv). exact Ev.
  - unfold vid_box.
    pose proof (writes_trans _ _ _ _ _ Hch Hv) as Hall.
    rewrite (writes_cells_written _ _ _ Hall), Eh, Ev, app_assoc.
    reflexivity.
Qed.

Lemma hedge_list_length r1 c1 r2 c2 attr st :
  length (hedge_list r1 c1 r2 c2 attr st) = (2 * Z.to_nat (box_hlen c1 c2))%nat.
Proof.
  unfold hedge_list. cbv zeta.
  rewrite length_app, !cell_run_length, !repeat_length. lia.
Qed.

Lemma vedge_list_length r1 c1 r2 c2 attr st :
  length (vedge_list r1 c1 r2 c2 attr st) = (2 * Z.to_nat (box_vlen r1 r2))%nat.
Proof.
  unfold vedge_list. cbv zeta.
  rewrite length_app, !col_run_length. lia.
Qed.

End BoxFacts.

Section BoxTheorems.
Context {hdr : video_h}.

(** C3 (amended). [vid_box 2 2 5 10] writes 4 corner cells, then
    2*(10-2-1) = 14 horizontal-edge cells in rows 2 and 5, columns 3
    to 9, then 2*(5-2-1) = 4 vertical-edge cells in rows 3 and 4 of
    columns 2 and 10: 18 edge cells and 4 corners, 22 cells in all. *)
Theorem vid_box_2_2_5_10 (attr : Z) (st : state) :
  let a := byte (vid_map_attr st attr) in
  box_corner_cells 2 2 5 10 attr st
    = [ mkCell (cell_ptr st 2 2) (byte VID_BOX_TL) a;
        mkCell (cell_ptr st 2 10) (byte VID_BOX_TR) a;
        mkCell (cell_ptr st 5 2) (byte VID_BOX_BL) a;
        mkCell (cell_ptr st 5 10) (byte VID_BOX_BR) a ]
  /\ box_hedge_cells 2 2 5 10 attr st
    = cell_run (cell_ptr st 2 3) (repeat VID_BOX_H 7) (vid_map_attr st attr)
      ++ cell_run (cell_ptr st 5 3) (repeat VID_BOX_H 7) (vid_map_attr st attr)
  /\ box_vedge_cells 2 2 5 10 attr st
    = [ mkCell (cell_ptr st 3 2) (byte VID_BOX_V) a;
        mkCell (cell_ptr st 4 2) (byte VID_BOX_V) a;
        mkCell (cell_ptr st 3 10) (byte VID_BOX_V) a;
        mkCell (cell_ptr st 4 10) (byte VID_BOX_V) a ]
  /\ length (box_corner_cells 2 2 5 10 attr st) = 4%nat
  /\ length (box_hedge_cells 2 2 5 10 attr st) = 14%nat
  /\ length (box_vedge_cells 2 2 5 10 attr st) = 4%nat
  /\ cells_written st (vid_box 2 2 5 10 attr st)
     = box_corner_cells 2 2 5 10 attr st
       ++ box_hedge_cells 2 2 5 10 attr st
       ++ box_vedge_cells 2 2 5 10 attr st
  /\ length (cells_written st (vid_box 2 2 5 10 attr st)) = 22%nat.
Proof.
  cbv zeta.
  destruct (box_parts 2 2 5 10 attr st) as (Hc & Hh & Hv & Hall).
  rewrite Hall, Hc, Hh, Hv, <- out_attr_mapped.
  repeat split.
Qed.


End BoxTheorems.

(** The counts C3 names for [vid_box 2 2 5 10] are not the ones the
    code produces: it writes 4 vertical-edge cells, not 6, and 18 edge
    cells, not 24. *)
Lemma vid_box_2_2_5_10_not_24 :
  ~ (length (@box_corner_cells ibm_text 2 2 5 10 0x1F (descriptor VID_CGA 0)) = 4%nat
     /\ length (@box_hedge_cells ibm_text 2 2 5 10 0x1F (descriptor VID_CGA 0)) = 14%nat
     /\ length (@box_vedge_cells ibm_text 2 2 5 10 0x1F (descriptor VID_CGA 0)) = 6%nat
     /\ (length (@box_hedge_cells ibm_text 2 2 5 10 0x1F (descriptor VID_CGA 0))
         + length (@box_vedge_cells ibm_text 2 2 5 10 0x1F (descriptor VID_CGA 0))
         = 24)%nat).
Proof.
  intros (_ & _ & Hv & _). vm_compute in Hv. discriminate Hv.
Qed.



Lemma distinctb_NoDup (l : list Z) : distinctb l = true -> NoDup l.
Proof.
  induction l as [|z l IH]; intros H; [constructor|].
  cbn [distinctb] in H. apply andb_prop in H. destruct H as [Hz Hl].
  constructor; [|apply IH, Hl].
  intros Hin. apply negb_true_iff in Hz.
  assert (Hex : existsb (Z.eqb z) l = true).
  { apply existsb_exists. exists z. split; [exact Hin|apply Z.eqb_refl]. }
  congruence.
Qed.

(** The places of a run of cells do not depend on what is written. *)
Lemma cell_run_places p cs a :
  map cell_at (cell_run p cs a) = run_places p (length cs).
Proof.
  revert p. induction cs as [|c cs IH]; intros p; [reflexivity|].
  cbn. rewrite IH. reflexivity.
Qed.

Lemma col_run_places {hdr : video_h} st row col i k ch a :
  map cell_at (col_run st row col i k ch a)
  = col_places (vid_base st) row col i k.
Proof.
  revert i. induction k as [|k IH]; intros i; [reflexivity|].
  cbn [col_run col_places map cell_at]. rewrite IH. reflexivity.
Qed.

(** On the 80-column screen the 22 cells of [vid_box 2 2 5 10] are 22
    different places of the buffer. *)
Lemma vid_box_2_2_5_10_distinct (attr : Z) (st : state) :
  vid_base st = COLOR_BASE \/ vid_base st = MONO_BASE ->
  NoDup (map cell_at (cells_written st (@vid_box ibm_text 2 2 5 10 attr st))).
Proof.
  intros Hbase.
  destruct (@box_parts ibm_text 2 2 5 10 attr st) as (_ & _ & _ & Hall).
  rewrite Hall. unfold corner_list, hedge_list, vedge_list, cell_ptr.
  rewrite !map_app, !map_cons, !cell_run_places, !col_run_places.
  cbn [map cell_at].
  apply distinctb_NoDup.
  destruct Hbase as [-> | ->]; vm_compute; reflexivity.
Qed.

(** ** The ten adapter types *)

Lemma all_adapters_complete (a : adapter) : In a all_adapters.
Proof. destruct a; cbn; tauto. Qed.

Lemma all_adapters_distinct : NoDup all_adapters.
Proof.
  unfold all_adapters.
  repeat (constructor; [cbn; intuition discriminate|]); constructor.
Qed.

(** ** The detection cascade *)

Section DetectFacts.
Variable hw : machine.

(** *** Steps 1 to 4 *)

Lemma detect_pga_accepts st :
  pga_accepts hw -> detect_pga hw st = Some (1, st).
Proof.
  unfold pga_accepts, pga_status, pga_command. intros (Hs & Hc & Hle).
  unfold detect_pga, bind, peek, ret.
  destruct (Z.eqb_spec (byte (farbyte hw 0xC6000300)) 0xFF) as [E|_]; [contradiction|].
  destruct (Z.eqb_spec (byte (farbyte hw 0xC6000000)) 0xFF) as [E|_]; [contradiction|].
  destruct (Z.gtb_spec (byte (farbyte hw 0xC6000300)) 0x0F) as [E|_]; [lia|].
  reflexivity.
Qed.

Lemma detect_pga_rejects st :
  ~ pga_accepts hw -> detect_pga hw st = Some (0, st).
Proof.
  unfold pga_accepts, pga_status, pga_command. intros Hno.
  unfold detect_pga, bind, peek, ret.
  destruct (Z.eqb_spec (byte (farbyte hw 0xC6000300)) 0xFF) as [E|Hs]; [reflexivity|].
  destruct (Z.eqb_spec (byte (farbyte hw 0xC6000000)) 0xFF) as [E|Hc]; [reflexivity|].
  destruct (Z.gtb_spec (byte (farbyte hw 0xC6000300)) 0x0F) as [E|Hle]; [reflexivity|].
  exfalso. apply Hno. repeat split; assumption.
Qed.

Lemma pga_accepts_dec : {pga_accepts hw} + {~ pga_accepts hw}.
Proof.
  unfold pga_accepts.
  destruct (Z.eq_dec (pga_status hw) 0xFF) as [E1|N1]; [right; tauto|].
  destruct (Z.eq_dec (pga_command hw) 0xFF) as [E2|N2]; [right; tauto|].
  destruct (Z_le_dec (pga_status hw) 0x0F) as [L|G]; [left; tauto|right; tauto].
Qed.

(** Step 1 classifies. *)
Lemma vid_init_video_state fuel regs0 st type mono :
  al (video_state_reply hw regs0) = 0x1A ->
  display_code (bl (video_state_reply hw regs0)) = Some (type, mono) ->
  vid_init hw fuel regs0 st
  = Some (type, set_descriptor type mono
                  (if truthy mono then MONO_BASE else COLOR_BASE) st).
Proof.
  unfold video_state_reply. intros Hal Hcode.
  unfold vid_init, bind, int86. rewrite Hal, Hcode. reflexivity.
Qed.

(** Step 2 classifies. *)
Lemma vid_init_ega fuel regs0 st :
  video_state_unmatched hw regs0 ->
  bl (ega_reply hw regs0) <> 0x10 ->
  vid_init hw fuel regs0 st
  = Some (VID_EGA,
          set_descriptor VID_EGA
            (if negb (bh (ega_reply hw regs0) =? 0) then 1 else 0)
            (if negb (bh (ega_reply hw regs0) =? 0) then MONO_BASE else COLOR_BASE)
            st).
Proof.
  unfold video_state_unmatched, ega_reply, video_state_reply. intros H1 H2.
  unfold vid_init, bind, int86. rewrite H1.
  apply Z.eqb_neq in H2. rewrite H2. cbn [negb].
  unfold vid_set, ret.
  destruct (bh _ =? 0); reflexivity.
Qed.

(** Step 3 classifies. *)
Lemma vid_init_pga fuel regs0 st :
  video_state_unmatched hw regs0 ->
  bl (ega_reply hw regs0) = 0x10 ->
  pga_accepts hw ->
  vid_init hw fuel regs0 st
  = Some (VID_PGA, set_descriptor VID_PGA 0 COLOR_BASE st).
Proof.
  unfold video_state_unmatched, ega_reply, video_state_reply. intros H1 H2 H3.
  unfold vid_init, bind, int86. rewrite H1, H2. cbn [Z.eqb Pos.eqb negb].
  rewrite (detect_pga_accepts st H3). reflexivity.
Qed.

(** Steps 1 to 3 pass the run on to the equipment word. *)
Lemma vid_init_past_pga fuel regs0 st :
  reaches_equipment hw regs0 ->
  vid_init hw fuel regs0 st
  = vid_init_equipment hw fuel (ega_reply hw regs0) st.
Proof.
  unfold reaches_equipment, video_state_unmatched, ega_reply, video_state_reply.
  intros (H1 & H2 & H3).
  unfold vid_init, bind, int86. rewrite H1, H2. cbn [Z.eqb Pos.eqb negb].
  rewrite (detect_pga_rejects st H3). reflexivity.
Qed.

Lemma vid_init_equipment_mono fuel regs0 st :
  equipment_bits hw regs0 = 0x03 ->
  vid_init_equipment hw fuel (ega_reply hw regs0) st = vid_init_mono hw fuel st.
Proof.
  unfold equipment_bits. intros H.
  unfold vid_init_equipment, bind, int86. rewrite H. reflexivity.
Qed.

Lemma vid_init_equipment_color fuel regs0 st :
  equipment_bits hw regs0 <> 0x03 ->
  vid_init_equipment hw fuel (ega_reply hw regs0) st = vid_init_color hw st.
Proof.
  unfold equipment_bits. intros H. apply Z.eqb_neq in H.
  unfold vid_init_equipment, bind, int86. rewrite H. reflexivity.
Qed.

End DetectFacts.

Section RetraceFacts.
Variable hw : machine.

(** *** Port 3BAh *)

Lemma inp_retrace st :
  inp hw 0x3BA st
  = Some (retrace_sample hw st 0,
          log_io (PortIn 0x3BA (retrace_sample hw st 0)) st).
Proof. unfold inp, retrace_sample. rewrite Nat.add_0_r. reflexivity. Qed.

Lemma retrace_sample_next st v k :
  retrace_sample hw (log_io (PortIn 0x3BA v) st) k
  = retrace_sample hw st (S k).
Proof.
  unfold retrace_sample, log_io. cbn [io nreads written Z.eqb Pos.eqb].
  rewrite Nat.add_succ_r. reflexivity.
Qed.

Lemma retrace_sample_set_base st base k :
  retrace_sample hw (set_base base st) k = retrace_sample hw st k.
Proof. reflexivity. Qed.

(** A retrace bit that stays at [val] keeps the poll going: whatever
    fuel it is given, it uses it up.  The counter is an [int], so the
    test [i < 32768] holds at every value it takes; of the increment
    the proof uses only that its result is again an [int]. *)
Lemma retrace_poll_steady val : forall fuel i st,
  in_range i ->
  (forall k, Z.land (retrace_sample hw st k) 0x80 = val) ->
  retrace_poll hw fuel i val st = None.
Proof.
  induction fuel as [|fuel IH]; intros i st Hi Hsteady; [reflexivity|].
  cbn [retrace_poll]. rewrite (int_below_ceiling i Hi).
  unfold bind at 1. rewrite inp_retrace.
  rewrite (Hsteady O), Z.eqb_refl. cbn [negb].
  apply IH.
  - apply wrap16_range.
  - intros k. rewrite retrace_sample_next. apply Hsteady.
Qed.

(** The exit at the ceiling, for a counter that would get there. *)
Lemma retrace_poll_at_ceiling val fuel st :
  retrace_poll hw (S fuel) 32768 val st = Some (0, st).
Proof. reflexivity. Qed.

(** A retrace bit that first leaves [val] at the [d]-th read ends the
    poll with [changed = 1], after [d + 1] reads. *)
Lemma retrace_poll_finds val : forall d fuel i st,
  in_range i ->
  (d < fuel)%nat ->
  (forall k, (k < d)%nat -> Z.land (retrace_sample hw st k) 0x80 = val) ->
  Z.land (retrace_sample hw st d) 0x80 <> val ->
  exists st',
    retrace_poll hw fuel i val st = Some (1, st')
    /\ (forall k, retrace_sample hw st' k = retrace_sample hw st (S d + k))
    /\ stores st' = stores st.
Proof.
  induction d as [|d IH]; intros fuel i st Hi Hfuel Hbefore Hat;
    (destruct fuel as [|fuel]; [lia|]);
    cbn [retrace_poll]; rewrite (int_below_ceiling i Hi);
    unfold bind at 1; rewrite inp_retrace.
  - apply Z.eqb_neq in Hat. rewrite Hat. cbn [negb].
    eexists. split; [reflexivity|]. split; [|reflexivity].
    intros k. apply retrace_sample_next.
  - rewrite (Hbefore O) by lia. rewrite Z.eqb_refl. cbn [negb].
    destruct (IH fuel (wrap16 (i + 1))
                (log_io (PortIn 0x3BA (retrace_sample hw st 0)) st))
      as (st' & Hrun & Hnext & Hst).
    + apply wrap16_range.
    + lia.
    + intros k Hk. rewrite retrace_sample_next. apply Hbefore. lia.
    + rewrite retrace_sample_next. exact Hat.
    + exists st'. split; [exact Hrun|]. split; [|exact Hst].
      intros k. rewrite Hnext, retrace_sample_next. reflexivity.
Qed.

(** *** The monochrome branch *)

Lemma vid_init_mono_steady st :
  retrace_steady hw st -> forall fuel, vid_init_mono hw fuel st = None.
Proof.
  intros Hsteady fuel. unfold vid_init_mono, bind at 1 2.
  rewrite inp_retrace. unfold bind at 1.
  rewrite retrace_poll_steady; [reflexivity| |].
  - unfold in_range, min_int, max_int. lia.
  - intros k. rewrite retrace_sample_next, !retrace_sample_set_base.
    apply Hsteady.
Qed.

Lemma vid_init_mono_toggle st j fuel :
  first_toggle hw st j ->
  (j <= fuel)%nat ->
  exists st',
    vid_init_mono hw fuel st = Some (fst (fst (hercules_kind (card_id (retrace_sample hw st (S j))))), st')
    /\ vid_adapter_type st' = fst (fst (hercules_kind (card_id (retrace_sample hw st (S j)))))
    /\ vid_mono st' = snd (fst (hercules_kind (card_id (retrace_sample hw st (S j)))))
    /\ vid_base st' = MONO_BASE
    /\ stores st' = stores st.
Proof.
  intros (Hj & Hbefore & Hat) Hfuel.
  destruct j as [|d]; [lia|].
  unfold vid_init_mono, bind at 1 2. rewrite inp_retrace. unfold bind at 1.
  rewrite retrace_sample_set_base.
  destruct (retrace_poll_finds (Z.land (retrace_sample hw st 0) 0x80) d fuel 0
              (log_io (PortIn 0x3BA (retrace_sample hw st 0))
                 (set_base 0xB0000000 st)))
    as (st1 & Hrun & Hnext & Hst).
  - unfold in_range, min_int, max_int. lia.
  - lia.
  - intros k Hk. rewrite retrace_sample_next, retrace_sample_set_base.
    apply Hbefore. lia.
  - rewrite retrace_sample_next, retrace_sample_set_base. exact Hat.
  - rewrite Hrun. cbn [truthy Z.eqb negb]. unfold bind at 1.
    rewrite inp_retrace, (Hnext O), retrace_sample_next,
      retrace_sample_set_base, Nat.add_0_r.
    fold (card_id (retrace_sample hw st (S (S d)))).
    unfold hercules_kind.
    destruct (card_id (retrace_sample hw st (S (S d))) =? 1);
      [|destruct (card_id (retrace_sample hw st (S (S d))) =? 5)];
      (eexists; split; [reflexivity|]); cbn; repeat split; exact Hst.
Qed.

End RetraceFacts.

Section ColorFacts.
Variable hw : machine.

(** *** The ColorPlus probe *)

Lemma vid_init_color_both st :
  colorplus_first hw st = 0x55 ->
  colorplus_second hw st = 0xAA ->
  vid_init_color hw st
  = Some (VID_COLORPLUS,
          mkState COLOR_BASE VID_COLORPLUS 0
            (PortOut 0x3DD 0x00 :: PortIn 0x3DD 0xAA :: PortOut 0x3DD 0xAA
             :: PortIn 0x3DD 0x55 :: PortOut 0x3DD 0x55 :: io st)
            (stores st)).
Proof.
  unfold colorplus_first, colorplus_second. intros H1 H2.
  unfold vid_init_color, bind, outp, inp, log_io.
  port_step.
  change (byte 0x55) with 0x55. rewrite H1. port_step.
  change (byte 0xAA) with 0xAA. rewrite H2. reflexivity.
Qed.

Lemma vid_init_color_second_fails st :
  colorplus_first hw st = 0x55 ->
  colorplus_second hw st <> 0xAA ->
  vid_init_color hw st
  = Some (VID_CGA,
          mkState COLOR_BASE VID_CGA 0
            (PortOut 0x3DD 0x00 :: PortIn 0x3DD (colorplus_second hw st)
             :: PortOut 0x3DD 0xAA
             :: PortIn 0x3DD 0x55 :: PortOut 0x3DD 0x55 :: io st)
            (stores st)).
Proof.
  intros H1 H2. apply Z.eqb_neq in H2. revert H1 H2.
  unfold colorplus_first, colorplus_second. intros H1 H2.
  unfold vid_init_color, bind, outp, inp, log_io.
  port_step.
  change (byte 0x55) with 0x55. rewrite H1. port_step.
  change (byte 0xAA) with 0xAA. rewrite H2. reflexivity.
Qed.

Lemma vid_init_color_first_fails st :
  colorplus_first hw st <> 0x55 ->
  vid_init_color hw st
  = Some (VID_CGA,
          mkState COLOR_BASE VID_CGA 0
            (PortOut 0x3DD 0x00 :: PortIn 0x3DD (colorplus_first hw st)
             :: PortOut 0x3DD 0x55 :: io st)
            (stores st)).
Proof.
  intros H1. apply Z.eqb_neq in H1. revert H1.
  unfold colorplus_first. intros H1.
  unfold vid_init_color, bind, outp, inp, log_io.
  port_step.
  change (byte 0x55) with 0x55. rewrite H1. reflexivity.
Qed.

(** The probe as a whole: it returns, ColorPlus exactly when both
    patterns read back, the port written last with 00h. *)
Lemma vid_init_color_returns st :
  exists r st',
    vid_init_color hw st = Some (r, st')
    /\ (r = VID_COLORPLUS <-> colorplus_round_trips hw st)
    /\ (r = VID_CGA <-> ~ colorplus_round_trips hw st)
    /\ descriptor_ok r st'
    /\ vid_mono st' = 0 /\ vid_base st' = COLOR_BASE
    /\ (exists rest, io st' = PortOut 0x3DD 0x00 :: rest)
    /\ (exists mid, written 0x3DD (io st')
                    = 0x00 :: mid ++ 0x55 :: written 0x3DD (io st)
                    /\ (mid = [] \/ mid = [0xAA])
                    /\ (mid = [0xAA] <-> colorplus_first hw st = 0x55))
    /\ stores st' = stores st.
Proof.
  unfold colorplus_round_trips.
  destruct (Z.eq_dec (colorplus_first hw st) 0x55) as [E1|N1].
  - destruct (Z.eq_dec (colorplus_second hw st) 0xAA) as [E2|N2].
    + eexists _, _. split; [exact (vid_init_color_both st E1 E2)|].
      unfold descriptor_ok. port_step.
      repeat split; try tauto; try discriminate; try (intros; assumption).
      * right. split; [discriminate|]. right. split; reflexivity.
      * eexists. reflexivity.
      * exists [0xAA]. cbn. repeat split; auto.
    + eexists _, _. split; [exact (vid_init_color_second_fails st E1 N2)|].
      unfold descriptor_ok. port_step.
      repeat split; try tauto; try discriminate; try (intros; assumption).
      * right. split; [discriminate|]. right. split; reflexivity.
      * eexists. reflexivity.
      * exists [0xAA]. cbn. repeat split; auto.
  - eexists _, _. split; [exact (vid_init_color_first_fails st N1)|].
    unfold descriptor_ok. port_step.
    repeat split; try tauto; try discriminate; try (intros; assumption).
    + right. split; [discriminate|]. right. split; reflexivity.
    + eexists. reflexivity.
    + exists []. cbn. repeat split; auto; try discriminate; try tauto.
Qed.

End ColorFacts.

(** ** The descriptor after detection *)

Lemma display_code_kinds code type mono :
  display_code code = Some (type, mono) ->
  type <> VID_INCOLOR /\ (mono = 0 \/ mono = 1).
Proof.
  unfold display_code.
  repeat (destruct (code =? _); [intros H; injection H as <- <-;
                                 split; [discriminate|auto]|]).
  discriminate.
Qed.

Lemma set_descriptor_ok type mono st :
  type <> VID_INCOLOR -> mono = 0 \/ mono = 1 ->
  descriptor_ok type
    (set_descriptor type mono (if truthy mono then MONO_BASE else COLOR_BASE) st).
Proof.
  intros Htype Hmono. unfold descriptor_ok. cbn [set_descriptor vid_adapter_type
    vid_mono vid_base io]. split; [reflexivity|]. right. split; [exact Htype|].
  destruct Hmono as [-> | ->]; cbn; auto.
Qed.

Section DescriptorFacts.
Variable hw : machine.

Lemma vid_init_mono_ok fuel st r st' :
  vid_init_mono hw fuel st = Some (r, st') -> descriptor_ok r st'.
Proof.
  unfold vid_init_mono, bind at 1 2. rewrite inp_retrace. unfold bind at 1.
  destruct (retrace_poll hw fuel 0 _ _) as [[changed s]|]; [|discriminate].
  destruct (truthy changed).
  - unfold bind at 1. rewrite inp_retrace.
    set (v := retrace_sample hw s 0).
    fold (card_id v).
    destruct (Z.eqb_spec (card_id v) 1) as [E1|N1];
      [|destruct (Z.eqb_spec (card_id v) 5) as [E5|N5]];
      unfold bind, vid_set, vid_set_ex, ret; intros H; injection H as <- <-.
    + apply (set_descriptor_ok VID_HERCPLUS 1); [discriminate|auto].
    + unfold descriptor_ok. cbn. split; [reflexivity|]. left.
      repeat split. exists v, (io s). split; [reflexivity|exact E5].
    + apply (set_descriptor_ok VID_HERCULES 1); [discriminate|auto].
  - unfold bind, vid_set, ret. intros H; injection H as <- <-.
    apply (set_descriptor_ok VID_MDA 1); [discriminate|auto].
Qed.

Lemma vid_init_color_ok st r st' :
  vid_init_color hw st = Some (r, st') -> descriptor_ok r st'.
Proof.
  destruct (vid_init_color_returns hw st) as (r0 & s0 & Hrun & _ & _ & Hok & _).
  rewrite Hrun. intros H; injection H as <- <-. exact Hok.
Qed.

Lemma vid_init_ok fuel regs0 st r st' :
  vid_init hw fuel regs0 st = Some (r, st') -> descriptor_ok r st'.
Proof.
  destruct (if al (video_state_reply hw regs0) =? 0x1A
            then display_code (bl (video_state_reply hw regs0)) else None)
    as [[type mono]|] eqn:Hstep1.
  - destruct (Z.eqb_spec (al (video_state_reply hw regs0)) 0x1A) as [Hal|_];
      [|discriminate].
    rewrite (vid_init_video_state hw fuel regs0 st type mono Hal Hstep1).
    intros H; injection H as <- <-.
    destruct (display_code_kinds _ _ _ Hstep1) as [Htype Hmono].
    apply set_descriptor_ok; assumption.
  - destruct (Z.eq_dec (bl (ega_reply hw regs0)) 0x10) as [Hega|Hega].
    + destruct (pga_accepts_dec hw) as [Hpga|Hpga].
      * rewrite (vid_init_pga hw fuel regs0 st Hstep1 Hega Hpga).
        intros H; injection H as <- <-.
        apply (set_descriptor_ok VID_PGA 0); [discriminate|auto].
      * rewrite (vid_init_past_pga hw fuel regs0 st (conj Hstep1 (conj Hega Hpga))).
        destruct (Z.eq_dec (equipment_bits hw regs0) 0x03) as [Hmono|Hcolor].
        -- rewrite (vid_init_equipment_mono hw fuel regs0 st Hmono).
           apply vid_init_mono_ok.
        -- rewrite (vid_init_equipment_color hw fuel regs0 st Hcolor).
           apply vid_init_color_ok.
    + rewrite (vid_init_ega hw fuel regs0 st Hstep1 Hega).
      intros H; injection H as <- <-.
      unfold descriptor_ok. cbn. split; [reflexivity|]. right.
      split; [discriminate|]. destruct (bh _ =? 0); cbn; auto.
Qed.

(** C6. Whenever [vid_init] returns: the type it returns is the one
    recorded; a set mono flag implies the mono buffer; a clear mono
    flag together with the mono buffer occurs for InColor and for no
    other type; every other result with a clear mono flag has the
    color buffer; and InColor is returned only after port 3BAh showed
    card ID 5. *)
Theorem vid_init_descriptor (fuel : nat) (regs0 : REGS) (st : state)
  (r : adapter) (st' : state) :
  vid_init hw fuel regs0 st = Some (r, st') ->
  vid_adapter_type st' = r
  /\ (truthy (vid_mono st') = true -> vid_base st' = MONO_BASE)
  /\ (truthy (vid_mono st') = false /\ vid_base st' = MONO_BASE
      <-> r = VID_INCOLOR)
  /\ (truthy (vid_mono st') = false -> r <> VID_INCOLOR ->
      vid_base st' = COLOR_BASE)
  /\ (r = VID_INCOLOR ->
      exists v rest, io st' = PortIn 0x3BA v :: rest /\ card_id v = 5).
Proof.
  intros Hrun. apply vid_init_ok in Hrun.
  destruct Hrun as (Htype & [(Hin & Hm & Hb & Hid) | (Hnot & [(Hm & Hb) | (Hm & Hb)])]).
  - repeat split; try tauto.
    rewrite Hm. reflexivity.
  - repeat split; try tauto.
    + intros [Hf _]. rewrite Hm in Hf. discriminate.
    + rewrite Hm. discriminate.
  - repeat split; try tauto.
    + rewrite Hm. discriminate.
    + intros [_ Hb']. rewrite Hb in Hb'. discriminate.
Qed.

End DescriptorFacts.

(** ** Which runs return *)

Section Termination.
Variable hw : machine.

Lemma vid_init_on_mono fuel regs0 st :
  reaches_equipment hw regs0 ->
  equipment_bits hw regs0 = 0x03 ->
  vid_init hw fuel regs0 st = vid_init_mono hw fuel st.
Proof.
  intros Hreach Hbits.
  rewrite (vid_init_past_pga hw fuel regs0 st Hreach).
  apply vid_init_equipment_mono, Hbits.
Qed.

Lemma vid_init_on_color fuel regs0 st :
  reaches_equipment hw regs0 ->
  equipment_bits hw regs0 <> 0x03 ->
  vid_init hw fuel regs0 st = vid_init_color hw st.
Proof.
  intros Hreach Hbits.
  rewrite (vid_init_past_pga hw fuel regs0 st Hreach).
  apply vid_init_equipment_color, Hbits.
Qed.

(** On the monochrome branch a retrace bit that never moves keeps
    [vid_init] in its poll for ever. *)
Lemma vid_init_diverges regs0 st :
  reaches_equipment hw regs0 ->
  equipment_bits hw regs0 = 0x03 ->
  retrace_steady hw st ->
  diverges hw regs0 st.
Proof.
  intros Hreach Hbits Hsteady fuel.
  rewrite (vid_init_on_mono fuel regs0 st Hreach Hbits).
  apply vid_init_mono_steady, Hsteady.
Qed.

(** On the monochrome branch a retrace bit that moves, however late,
    lets [vid_init] return. *)
Lemma vid_init_returns_on_toggle regs0 st j :
  reaches_equipment hw regs0 ->
  equipment_bits hw regs0 = 0x03 ->
  first_toggle hw st j ->
  exists r st', returns hw regs0 st r st'.
Proof.
  intros Hreach Hbits Htoggle.
  destruct (vid_init_mono_toggle hw st j j Htoggle (Nat.le_refl j))
    as (st' & Hrun & _).
  eexists _, st', j.
  rewrite (vid_init_on_mono j regs0 st Hreach Hbits). exact Hrun.
Qed.

(** Off the monochrome branch [vid_init] returns without entering any
    loop. *)
Lemma vid_init_returns_elsewhere regs0 st :
  ~ (reaches_equipment hw regs0 /\ equipment_bits hw regs0 = 0x03) ->
  forall fuel, exists r st', vid_init hw fuel regs0 st = Some (r, st').
Proof.
  intros Hoff fuel.
  destruct (if al (video_state_reply hw regs0) =? 0x1A
            then display_code (bl (video_state_reply hw regs0)) else None)
    as [[type mono]|] eqn:Hstep1.
  - destruct (Z.eqb_spec (al (video_state_reply hw regs0)) 0x1A) as [Hal|_];
      [|discriminate].
    eexists _, _. exact (vid_init_video_state hw fuel regs0 st type mono Hal Hstep1).
  - destruct (Z.eq_dec (bl (ega_reply hw regs0)) 0x10) as [Hega|Hega].
    + destruct (pga_accepts_dec hw) as [Hpga|Hpga].
      * eexists _, _. exact (vid_init_pga hw fuel regs0 st Hstep1 Hega Hpga).
      * assert (Hreach : reaches_equipment hw regs0) by (repeat split; assumption).
        destruct (Z.eq_dec (equipment_bits hw regs0) 0x03) as [Hmono|Hcolor];
          [exfalso; apply Hoff; split; assumption|].
        destruct (vid_init_color_returns hw st) as (r & st' & Hrun & _).
        exists r, st'. rewrite (vid_init_on_color fuel regs0 st Hreach Hcolor).
        exact Hrun.
    + eexists _, _. exact (vid_init_ega hw fuel regs0 st Hstep1 Hega).
Qed.

(** What the cascade can still return once the PGA probe has
    rejected. *)
Lemma vid_init_equipment_kinds fuel regs0 st r st' :
  vid_init_equipment hw fuel (ega_reply hw regs0) st = Some (r, st') ->
  In r [VID_MDA; VID_HERCULES; VID_HERCPLUS; VID_INCOLOR; VID_CGA; VID_COLORPLUS].
Proof.
  destruct (Z.eq_dec (equipment_bits hw regs0) 0x03) as [Hmono|Hcolor].
  - rewrite (vid_init_equipment_mono hw fuel regs0 st Hmono).
    unfold vid_init_mono, bind at 1 2. rewrite inp_retrace. unfold bind at 1.
    destruct (retrace_poll hw fuel 0 _ _) as [[changed s]|]; [|discriminate].
    destruct (truthy changed).
    + unfold bind at 1. rewrite inp_retrace.
      repeat (destruct (_ =? _));
        unfold bind, vid_set, vid_set_ex, ret; intros H; injection H as <- _;
        cbn; tauto.
    + unfold bind, vid_set, ret. intros H; injection H as <- _. cbn; tauto.
  - rewrite (vid_init_equipment_color hw fuel regs0 st Hcolor).
    destruct (vid_init_color_returns hw st)
      as (r0 & s0 & Hrun & Hplus & Hcga & _).
    rewrite Hrun. intros H; injection H as <- _.
    destruct (Z.eq_dec (colorplus_first hw st) 0x55) as [E1|N1];
      [destruct (Z.eq_dec (colorplus_second hw st) 0xAA) as [E2|N2]|].
    + rewrite (proj2 Hplus (conj E1 E2)). cbn; tauto.
    + rewrite (proj2 Hcga); [cbn; tauto|]. intros [_ H]. contradiction.
    + rewrite (proj2 Hcga); [cbn; tauto|]. intros [H _]. contradiction.
Qed.

End Termination.

(** ** Detection: the main theorems *)

Section DetectionTheorems.
Variable hw : machine.

(** C7. Once steps 1 and 2 have passed, the PGA probe accepts exactly
    when the status byte is not FFh, the command byte is not FFh and
    the status byte is at most 0Fh; on acceptance [vid_init] returns
    PGA with the color descriptor and no further probe; on rejection
    it goes on with the equipment word, and no later step returns
    PGA. *)
Theorem pga_probe_decides (fuel : nat) (regs0 : REGS) (st : state) :
  video_state_unmatched hw regs0 ->
  bl (ega_reply hw regs0) = 0x10 ->
  (detect_pga hw st = Some (1, st) <-> pga_accepts hw)
  /\ (detect_pga hw st = Some (0, st) <-> ~ pga_accepts hw)
  /\ (pga_accepts hw ->
      vid_init hw fuel regs0 st
      = Some (VID_PGA, set_descriptor VID_PGA 0 COLOR_BASE st))
  /\ (~ pga_accepts hw ->
      vid_init hw fuel regs0 st
      = vid_init_equipment hw fuel (ega_reply hw regs0) st)
  /\ ((exists st', vid_init hw fuel regs0 st = Some (VID_PGA, st'))
      <-> pga_accepts hw).
Proof.
  intros Hstep1 Hega.
  assert (Hyes := fun H => vid_init_pga hw fuel regs0 st Hstep1 Hega H).
  assert (Hno : ~ pga_accepts hw ->
                vid_init hw fuel regs0 st
                = vid_init_equipment hw fuel (ega_reply hw regs0) st).
  { intros H. apply vid_init_past_pga. repeat split; assumption. }
  split; [|split; [|split; [exact Hyes|split; [exact Hno|]]]].
  - split; [|apply detect_pga_accepts].
    intros H. destruct (pga_accepts_dec hw) as [Hacc|Hrej]; [exact Hacc|].
    rewrite (detect_pga_rejects hw st Hrej) in H. discriminate.
  - split; [|apply detect_pga_rejects].
    intros H Hacc. rewrite (detect_pga_accepts hw st Hacc) in H. discriminate.
  - split.
    + intros (st' & Hrun).
      destruct (pga_accepts_dec hw) as [Hacc|Hrej]; [exact Hacc|].
      rewrite (Hno Hrej) in Hrun.
      apply vid_init_equipment_kinds in Hrun. cbn in Hrun.
      repeat (destruct Hrun as [Hrun|Hrun]; [discriminate|]). contradiction.
    + intros Hacc. eexists. exact (Hyes Hacc).
Qed.

(** C8. When the cascade reaches the ColorPlus probe, [vid_init]
    writes 55h to port 3DDh and reads it back, and if that matched
    writes AAh and reads it back; it returns ColorPlus exactly when
    both reads matched and CGA otherwise; in every case its last port
    access writes 00h to port 3DDh, and the descriptor is a color
    one. *)
Theorem colorplus_probe_restores (fuel : nat) (regs0 : REGS) (st : state) :
  reaches_equipment hw regs0 ->
  equipment_bits hw regs0 <> 0x03 ->
  exists r st',
    vid_init hw fuel regs0 st = Some (r, st')
    /\ (r = VID_COLORPLUS <-> colorplus_round_trips hw st)
    /\ (r = VID_CGA <-> ~ colorplus_round_trips hw st)
    /\ vid_adapter_type st' = r
    /\ vid_mono st' = 0
    /\ vid_base st' = COLOR_BASE
    /\ (exists rest, io st' = PortOut 0x3DD 0x00 :: rest)
    /\ (exists mid,
          written 0x3DD (io st') = 0x00 :: mid ++ 0x55 :: written 0x3DD (io st)
          /\ (mid = [] \/ mid = [0xAA])
          /\ (mid = [0xAA] <-> colorplus_first hw st = 0x55)).
Proof.
  intros Hreach Hcolor.
  destruct (vid_init_color_returns hw st)
    as (r & st' & Hrun & Hplus & Hcga & Hok & Hm & Hb & Hlast & Hwr & _).
  exists r, st'. rewrite (vid_init_on_color hw fuel regs0 st Hreach Hcolor).
  destruct Hok as [Htype _].
  repeat (split; [assumption|]). exact Hwr.
Qed.

(** C5. The three detection scenarios.  (1) The video-state query
    succeeds with display code 07h: VGA, mono flag set.  (2) The
    query fails, the EGA sentinel comes back unchanged, the PGA
    status byte reads FFh, the equipment bits are 11b, the retrace
    bit toggles within the ceiling and the card ID then reads 5:
    InColor, mono flag clear, mono buffer.  (3) The query fails, the
    EGA sentinel is unchanged, the PGA probe rejects, the equipment
    bits are not 11b and port 3DDh returns both patterns: ColorPlus,
    mono flag clear, port 3DDh written last with 00h. *)
Theorem detection_scenarios (regs0 : REGS) (st : state) :
  (al (video_state_reply hw regs0) = 0x1A ->
   bl (video_state_reply hw regs0) = 0x07 ->
   forall fuel, exists st',
     vid_init hw fuel regs0 st = Some (VID_VGA, st')
     /\ vid_adapter_type st' = VID_VGA
     /\ truthy (vid_mono st') = true)
  /\ (al (video_state_reply hw regs0) <> 0x1A ->
      bl (ega_reply hw regs0) = 0x10 ->
      pga_status hw = 0xFF ->
      equipment_bits hw regs0 = 0x03 ->
      forall j, first_toggle hw st j -> Z.of_nat j <= 32768 ->
      card_id (retrace_sample hw st (S j)) = 5 ->
      exists st',
        returns hw regs0 st VID_INCOLOR st'
        /\ vid_adapter_type st' = VID_INCOLOR
        /\ truthy (vid_mono st') = false
        /\ vid_base st' = MONO_BASE)
  /\ (al (video_state_reply hw regs0) <> 0x1A ->
      bl (ega_reply hw regs0) = 0x10 ->
      ~ pga_accepts hw ->
      equipment_bits hw regs0 <> 0x03 ->
      colorplus_round_trips hw st ->
      forall fuel, exists st',
        vid_init hw fuel regs0 st = Some (VID_COLORPLUS, st')
        /\ vid_adapter_type st' = VID_COLORPLUS
        /\ truthy (vid_mono st') = false
        /\ exists rest, io st' = PortOut 0x3DD 0x00 :: rest).
Proof.
  assert (Hfail : al (video_state_reply hw regs0) <> 0x1A ->
                  video_state_unmatched hw regs0).
  { intros H. unfold video_state_unmatched.
    apply Z.eqb_neq in H. rewrite H. reflexivity. }
  split; [|split].
  - intros Hal Hbl fuel. eexists.
    rewrite (vid_init_video_state hw fuel regs0 st VID_VGA 1 Hal);
      [|rewrite Hbl; reflexivity].
    repeat split.
  - intros Hal Hega Hpga Hbits j Htoggle _ Hid.
    assert (Hreach : reaches_equipment hw regs0).
    { repeat split; [apply Hfail, Hal|exact Hega|].
      intros (Hs & _). contradiction. }
    destruct (vid_init_mono_toggle hw st j j Htoggle (Nat.le_refl j))
      as (st' & Hrun & Htype & Hmono & Hbase & _).
    rewrite Hid in Hrun, Htype, Hmono. cbn in Hrun, Htype, Hmono.
    exists st'. split; [|split; [exact Htype|split; [|exact Hbase]]].
    + exists j. rewrite (vid_init_on_mono hw j regs0 st Hreach Hbits). exact Hrun.
    + rewrite Hmono. reflexivity.
  - intros Hal Hega Hpga Hbits Hboth fuel.
    assert (Hreach : reaches_equipment hw regs0).
    { repeat split; [apply Hfail, Hal|exact Hega|exact Hpga]. }
    destruct (vid_init_color_returns hw st)
      as (r & st' & Hrun & Hplus & _ & [Htype _] & Hmono & _ & Hlast & _).
    apply Hplus in Hboth. subst r.
    exists st'. rewrite (vid_init_on_color hw fuel regs0 st Hreach Hbits).
    split; [exact Hrun|]. split; [exact Htype|].
    split; [rewrite Hmono; reflexivity|exact Hlast].
Qed.

End DetectionTheorems.

(** ** The sample machines, run *)

Lemma mda_pc_reaches_poll :
  reaches_equipment mda_pc no_regs
  /\ equipment_bits mda_pc no_regs = 0x03
  /\ retrace_steady mda_pc boot.
Proof.
  split; [|split].
  - repeat split; try reflexivity.
    intros (Hs & _). apply Hs. reflexivity.
  - reflexivity.
  - intros k. reflexivity.
Qed.

(** C2. On an MDA machine (no video-state service, no EGA BIOS, a
    floating bus at the PGA buffer, equipment bits 11b, a status port
    whose bit 7 never moves) [vid_init] does not return, whatever the
    number of steps it is given: its poll counter is an [int], which
    never reaches 32768. *)
Theorem vid_init_hangs_on_mda : diverges mda_pc no_regs boot.
Proof.
  destruct mda_pc_reaches_poll as (Hreach & Hbits & Hsteady).
  exact (vid_init_diverges mda_pc no_regs boot Hreach Hbits Hsteady).
Qed.

Lemma incolor_pc_first_toggle : first_toggle incolor_pc boot 3.
Proof.
  split; [lia|]. split.
  - intros k Hk. assert (Hcases : k = 1%nat \/ k = 2%nat) by lia.
    destruct Hcases as [-> | ->]; reflexivity.
  - vm_compute. discriminate.
Defined.

Lemma vid_init_descriptor_witness :
  vid_init incolor_pc 8 no_regs boot
  = Some (VID_INCOLOR, final_state incolor_pc 8 no_regs boot)
  /\ (truthy (vid_mono (final_state incolor_pc 8 no_regs boot)) = false
      /\ vid_base (final_state incolor_pc 8 no_regs boot) = MONO_BASE
      <-> VID_INCOLOR = VID_INCOLOR).
Proof.
  assert (E : vid_init incolor_pc 8 no_regs boot
              = Some (VID_INCOLOR, final_state incolor_pc 8 no_regs boot))
    by (vm_compute; reflexivity).
  split; [exact E|].
  exact (proj1 (proj2 (proj2 (vid_init_descriptor incolor_pc 8 no_regs boot
                                VID_INCOLOR _ E)))).
Defined.

Lemma pga_probe_decides_witness :
  vid_init pga_pc 0 no_regs boot
  = Some (VID_PGA, set_descriptor VID_PGA 0 COLOR_BASE boot)
  /\ vid_init cga_pc 0 no_regs boot
     = vid_init_equipment cga_pc 0 (ega_reply cga_pc no_regs) boot.
Proof.
  split.
  - apply (pga_probe_decides pga_pc 0 no_regs boot); try reflexivity.
    repeat split; vm_compute; intros H; discriminate H.
  - apply (pga_probe_decides cga_pc 0 no_regs boot); try reflexivity.
    intros (Hs & _). apply Hs. reflexivity.
Defined.

Lemma colorplus_probe_restores_witness :
  (exists r st',
     vid_init colorplus_pc 0 no_regs boot = Some (r, st')
     /\ r = VID_COLORPLUS
     /\ exists rest, io st' = PortOut 0x3DD 0x00 :: rest)
  /\ (exists r st',
        vid_init cga_pc 0 no_regs boot = Some (r, st')
        /\ r = VID_CGA
        /\ exists rest, io st' = PortOut 0x3DD 0x00 :: rest).
Proof.
  split.
  - destruct (colorplus_probe_restores colorplus_pc 0 no_regs boot)
      as (r & st' & Hrun & Hplus & _ & _ & _ & _ & Hlast & _).
    + repeat split; try reflexivity. intros (Hs & _). apply Hs. reflexivity.
    + vm_compute. discriminate.
    + exists r, st'. split; [exact Hrun|]. split; [|exact Hlast].
      apply Hplus. split; reflexivity.
  - destruct (colorplus_probe_restores cga_pc 0 no_regs boot)
      as (r & st' & Hrun & _ & Hcga & _ & _ & _ & Hlast & _).
    + repeat split; try reflexivity. intros (Hs & _). apply Hs. reflexivity.
    + vm_compute. discriminate.
    + exists r, st'. split; [exact Hrun|]. split; [|exact Hlast].
      apply Hcga. intros (H & _). vm_compute in H. discriminate H.
Defined.

Lemma detection_scenarios_witness :
  (exists st', vid_init vga_mono_pc 0 no_regs boot = Some (VID_VGA, st')
               /\ truthy (vid_mono st') = true)
  /\ (exists st', returns incolor_pc no_regs boot VID_INCOLOR st'
                  /\ truthy (vid_mono st') = false
                  /\ vid_base st' = MONO_BASE)
  /\ (exists st', vid_init colorplus_pc 0 no_regs boot = Some (VID_COLORPLUS, st')
                  /\ truthy (vid_mono st') = false
                  /\ exists rest, io st' = PortOut 0x3DD 0x00 :: rest).
Proof.
  split; [|split].
  - destruct (proj1 (detection_scenarios vga_mono_pc no_regs boot)
                eq_refl eq_refl 0%nat) as (st' & Hrun & _ & Hmono).
    exists st'. split; assumption.
  - destruct (proj1 (proj2 (detection_scenarios incolor_pc no_regs boot)))
      with (j := 3%nat) as (st' & Hrun & _ & Hmono & Hbase).
    + vm_compute. discriminate.
    + reflexivity.
    + reflexivity.
    + reflexivity.
    + exact incolor_pc_first_toggle.
    + vm_compute. discriminate.
    + reflexivity.
    + exists st'. repeat split; assumption.
  - destruct (proj2 (proj2 (detection_scenarios colorplus_pc no_regs boot)))
      with (fuel := 0%nat) as (st' & Hrun & _ & Hmono & Hlast).
    + vm_compute. discriminate.
    + reflexivity.
    + intros (Hs & _). apply Hs. reflexivity.
    + vm_compute. discriminate.
    + split; reflexivity.
    + exists st'. repeat split; assumption.
Defined.

(** * The rest of the library: properties *)

(** ** Far pointer arithmetic *)

Lemma wrap16_mod z : wrap16 z mod 65536 = z mod 65536.
Proof.
  unfold wrap16.
  replace ((z + 32768) mod 65536 - 32768)
    with ((z + 32768) mod 65536 + (-32768)) by lia.
  rewrite Zplus_mod_idemp_l. f_equal. lia.
Qed.

Lemma wrap16_eq z : exists q, wrap16 z = z + 65536 * q.
Proof.
  exists (- ((z + 32768) / 65536)). unfold wrap16.
  pose proof (Z.div_mod (z + 32768) 65536). lia.
Qed.

Lemma congr_mod a b k : a = b + 65536 * k -> a mod 65536 = b mod 65536.
Proof. intros ->. rewrite Z.mul_comm. apply Z_mod_plus_full. Qed.

Lemma land_low16 z : Z.land z 0xFFFF = z mod 65536.
Proof. change 0xFFFF with (Z.ones 16). rewrite Z.land_ones by lia. reflexivity. Qed.

Lemma far_add_congr p a b :
  a mod 65536 = b mod 65536 -> far_add p a = far_add p b.
Proof.
  intros H. unfold far_add. rewrite !land_low16.
  rewrite (Zplus_mod p a), (Zplus_mod p b), H. reflexivity.
Qed.

Lemma far_add_wrap16 p k : far_add p (wrap16 k) = far_add p k.
Proof. apply far_add_congr, wrap16_mod. Qed.

Lemma far_off_far_add p k : far_off (far_add p k) = (p + k) mod 65536.
Proof.
  unfold far_off, far_add.
  rewrite Z.land_lor_distr_l, <- !Z.land_assoc.
  change (Z.land 0xFFFF0000 0xFFFF) with 0.
  change (Z.land 0xFFFF 0xFFFF) with 0xFFFF.
  rewrite Z.land_0_r, Z.lor_0_l. apply land_low16.
Qed.

Lemma far_add_add p a b : far_add (far_add p a) b = far_add p (a + b).
Proof.
  unfold far_add at 1 3. f_equal.
  - unfold far_add.
    rewrite Z.land_lor_distr_l, <- !Z.land_assoc.
    change (Z.land 0xFFFF0000 0xFFFF0000) with 0xFFFF0000.
    change (Z.land 0xFFFF 0xFFFF0000) with 0.
    rewrite Z.land_0_r, Z.lor_0_r. reflexivity.
  - rewrite !land_low16.
    rewrite (Zplus_mod (far_add p a) b).
    rewrite <- (land_low16 (far_add p a)).
    change (Z.land (far_add p a) 0xFFFF) with (far_off (far_add p a)).
    rewrite far_off_far_add, <- Zplus_mod. f_equal. lia.
Qed.

(** Within one segment different offsets are different places. *)
Lemma far_add_inj p a b :
  far_add p a = far_add p b -> a mod 65536 = b mod 65536.
Proof.
  intros H. apply (f_equal far_off) in H.
  rewrite !far_off_far_add in H.
  rewrite <- (Z.add_simpl_l p a), <- (Z.add_simpl_l p b).
  rewrite (Zminus_mod (p + a) p), (Zminus_mod (p + b) p), H. reflexivity.
Qed.

(** ** Cell addresses *)

Section Addressing.
Context {hdr : video_h}.

(** The [int] arithmetic of the offset never shows in the address: the
    offset is two times the cell number, modulo the segment size. *)
Lemma cell_ptr_linear st row col :
  cell_ptr st row col = far_add (vid_base st) (2 * cell_index row col).
Proof.
  unfold cell_ptr, cell_offset, cell_index.
  rewrite far_add_wrap16. apply far_add_congr.
  rewrite Z.shiftl_mul_pow2 by lia. change (2 ^ 1) with 2.
  destruct (wrap16_eq (row * VID_COLS)) as [q1 E1].
  destruct (wrap16_eq (wrap16 (row * VID_COLS) + col)) as [q2 E2].
  rewrite E2, E1. apply (congr_mod _ _ (2 * q2 + 2 * q1)). ring.
Qed.

Lemma cell_ptr_same_index st r c r' c' :
  cell_index r c = cell_index r' c' -> cell_ptr st r c = cell_ptr st r' c'.
Proof. intros H. rewrite !cell_ptr_linear, H. reflexivity. Qed.

Lemma cell_ptr_right st row col k :
  far_add (cell_ptr st row col) (2 * k) = cell_ptr st row (col + k).
Proof.
  rewrite !cell_ptr_linear, far_add_add. f_equal. unfold cell_index. lia.
Qed.

Lemma cell_ptr_next_row st row col q :
  cell_ptr st row (col + q * VID_COLS) = cell_ptr st (row + q) col.
Proof. apply cell_ptr_same_index. unfold cell_index. lia. Qed.

Lemma cell_ptr_wrap16_row st row col :
  cell_ptr st (wrap16 row) col = cell_ptr st row col.
Proof.
  rewrite !cell_ptr_linear. apply far_add_congr. unfold cell_index.
  destruct (wrap16_eq row) as [q E]. rewrite E.
  apply (congr_mod _ _ (2 * q * VID_COLS)). ring.
Qed.

Lemma cell_ptr_wrap16_col st row col :
  cell_ptr st row (wrap16 col) = cell_ptr st row col.
Proof.
  rewrite !cell_ptr_linear. apply far_add_congr. unfold cell_index.
  destruct (wrap16_eq col) as [q E]. rewrite E.
  apply (congr_mod _ _ (2 * q)). ring.
Qed.

Lemma row_run_same_base st st' cs0 row col cs a :
  writes st st' cs0 -> row_run st' row col cs a = row_run st row col cs a.
Proof.
  intros H. revert col. induction cs as [|c cs IH]; intros col; [reflexivity|].
  cbn [row_run]. rewrite IH, (writes_cell_ptr _ _ _ _ _ H). reflexivity.
Qed.

(** A run of cells written by stepping the pointer is the run of cells
    to the right of its first one. *)
Lemma cell_run_row_run st row col cs a :
  cell_run (cell_ptr st row col) cs a = row_run st row col cs a.
Proof.
  revert col. induction cs as [|c cs IH]; intros col; [reflexivity|].
  cbn [cell_run row_run]. f_equal.
  change 2 with (2 * 1). rewrite cell_ptr_right. apply IH.
Qed.

Lemma row_run_length st row col cs a :
  length (row_run st row col cs a) = length cs.
Proof.
  revert col. induction cs as [|c cs IH]; intros col; [reflexivity|].
  cbn. rewrite IH. reflexivity.
Qed.

(** The members of a run that repeats one character. *)
Lemma in_row_run_repeat st row col ch n a c :
  In c (row_run st row col (repeat ch n) a) <->
  exists k, 0 <= k < Z.of_nat n
            /\ c = mkCell (cell_ptr st row (col + k)) (byte ch) (byte a).
Proof.
  revert col. induction n as [|n IH]; intros col.
  - cbn. split; [tauto|]. intros (k & Hk & _). lia.
  - cbn [repeat row_run In]. rewrite IH. split.
    + intros [<- | (k & Hk & ->)].
      * exists 0. split; [lia|]. rewrite Z.add_0_r. reflexivity.
      * exists (k + 1). split; [lia|]. f_equal. f_equal. lia.
    + intros (k & Hk & ->).
      destruct (Z.eq_dec k 0) as [-> | Hnz].
      * left. rewrite Z.add_0_r. reflexivity.
      * right. exists (k - 1). split; [lia|]. f_equal. f_equal. lia.
Qed.



End Addressing.

(** ** Reading back what was written *)

Lemma lookup_store_app p l old :
  lookup_store p (l ++ old)
  = match lookup_store p l with
    | Some v => Some v
    | None => lookup_store p old
    end.
Proof.
  induction l as [|[q v] l IH]; [reflexivity|].
  cbn. destruct (q =? p); [reflexivity|exact IH].
Qed.

Lemma lookup_store_absent p l :
  (forall q v, In (q, v) l -> q <> p) -> lookup_store p l = None.
Proof.
  induction l as [|[q v] l IH]; intros H; [reflexivity|].
  cbn. destruct (Z.eqb_spec q p) as [E|_].
  - exfalso. apply (H q v); [left; reflexivity|exact E].
  - apply IH. intros q' v' Hin. apply (H q' v'). right. exact Hin.
Qed.

Lemma lookup_store_all_same p x l :
  (exists v, In (p, v) l) ->
  (forall v, In (p, v) l -> v = x) ->
  lookup_store p l = Some x.
Proof.
  induction l as [|[q v] l IH]; intros (w & Hw) Hsame; [destruct Hw|].
  cbn. destruct (Z.eqb_spec q p) as [E|N].
  - subst q. f_equal. apply Hsame. left. reflexivity.
  - apply IH.
    + destruct Hw as [Hw|Hw]; [injection Hw as -> _; contradiction|].
      exists w. exact Hw.
    + intros v' Hin. apply Hsame. right. exact Hin.
Qed.

Lemma in_cell_bytes cs q v :
  In (q, v) (rev (flat_map cell_bytes cs)) <->
  exists c, In c cs
            /\ ((q, v) = (cell_at c, cell_ch c)
                \/ (q, v) = (far_add (cell_at c) 1, cell_attr c)).
Proof.
  rewrite <- in_rev, in_flat_map. unfold cell_bytes. cbn [In].
  split; intros (c & Hc & H); exists c; (split; [exact Hc|]).
  - destruct H as [H|[H|[]]]; [left|right]; symmetry; exact H.
  - destruct H as [H|H]; [left|right; left]; symmetry; exact H.
Qed.

(** A place no cell of the run covers keeps its byte. *)
Lemma load_writes_absent st st' cs p :
  writes st st' cs ->
  (forall c, In c cs -> cell_at c <> p /\ far_add (cell_at c) 1 <> p) ->
  load st' p = load st p.
Proof.
  intros (Hs & _) Hfar. unfold load. rewrite Hs, lookup_store_app.
  rewrite lookup_store_absent; [reflexivity|].
  intros q v Hin. apply in_cell_bytes in Hin.
  destruct Hin as (c & Hc & [E|E]); injection E as -> _; apply (Hfar c Hc).
Qed.

(** A character place covered by cells that agree on the character reads
    that character. *)
Lemma load_writes_char st st' cs p x :
  writes st st' cs ->
  (exists c, In c cs /\ cell_at c = p) ->
  (forall c, In c cs -> cell_at c = p -> cell_ch c = x) ->
  (forall c, In c cs -> far_add (cell_at c) 1 <> p) ->
  load st' p = Some x.
Proof.
  intros (Hs & _) (c0 & Hc0 & Hp0) Hsame Hattr.
  unfold load. rewrite Hs, lookup_store_app.
  rewrite (lookup_store_all_same p x); [reflexivity| |].
  - exists (cell_ch c0). apply in_cell_bytes. exists c0.
    split; [exact Hc0|]. left. rewrite Hp0. reflexivity.
  - intros v Hin. apply in_cell_bytes in Hin.
    destruct Hin as (c & Hc & [E|E]); injection E as Hq Hv.
    + subst v. apply Hsame; [exact Hc|symmetry; exact Hq].
    + exfalso. apply (Hattr c Hc). symmetry. exact Hq.
Qed.

Lemma load_writes_attr st st' cs p x :
  writes st st' cs ->
  (exists c, In c cs /\ far_add (cell_at c) 1 = p) ->
  (forall c, In c cs -> far_add (cell_at c) 1 = p -> cell_attr c = x) ->
  (forall c, In c cs -> cell_at c <> p) ->
  load st' p = Some x.
Proof.
  intros (Hs & _) (c0 & Hc0 & Hp0) Hsame Hchar.
  unfold load. rewrite Hs, lookup_store_app.
  rewrite (lookup_store_all_same p x); [reflexivity| |].
  - exists (cell_attr c0). apply in_cell_bytes. exists c0.
    split; [exact Hc0|]. right. rewrite Hp0. reflexivity.
  - intros v Hin. apply in_cell_bytes in Hin.
    destruct Hin as (c & Hc & [E|E]); injection E as Hq Hv.
    + exfalso. apply (Hchar c Hc). symmetry. exact Hq.
    + subst v. apply Hsame; [exact Hc|symmetry; exact Hq].
Qed.

Section Places.
Context {hdr : video_h}.

Lemma attr_ptr_linear st row col :
  far_add (cell_ptr st row col) 1
  = far_add (vid_base st) (2 * cell_index row col + 1).
Proof. rewrite cell_ptr_linear, far_add_add. reflexivity. Qed.

(** A character byte is never the attribute byte of any cell. *)
Lemma attr_ptr_not_char st r c r' c' :
  far_add (cell_ptr st r c) 1 <> cell_ptr st r' c'.
Proof.
  rewrite attr_ptr_linear, cell_ptr_linear. intros H.
  apply far_add_inj in H.
  pose proof (Z.div_mod (2 * cell_index r c + 1) 65536 ltac:(lia)).
  pose proof (Z.div_mod (2 * cell_index r' c') 65536 ltac:(lia)).
  lia.
Qed.

(** Cells with different numbers below 32768 are different places. *)
Lemma cell_ptr_distinct st r c r' c' :
  0 <= cell_index r c < 32768 ->
  0 <= cell_index r' c' < 32768 ->
  cell_index r c <> cell_index r' c' ->
  cell_ptr st r c <> cell_ptr st r' c'
  /\ far_add (cell_ptr st r c) 1 <> far_add (cell_ptr st r' c') 1.
Proof.
  intros H1 H2 Hne. rewrite !attr_ptr_linear, !cell_ptr_linear.
  split; intros H; apply far_add_inj in H;
    rewrite !Z.mod_small in H by lia; lia.
Qed.

Lemma on_screen_index r c :
  screen_fits -> on_screen r c ->
  0 <= cell_index r c < VID_ROWS * VID_COLS
  /\ VID_ROWS * VID_COLS <= 32767.
Proof.
  unfold screen_fits, on_screen, cell_index, max_int.
  intros (Hc & Hr & Hfit) (Hrow & Hcol). split; [|exact Hfit]. nia.
Qed.

Lemma on_screen_index_inj r c r' c' :
  screen_fits -> on_screen r c -> on_screen r' c' ->
  cell_index r c = cell_index r' c' -> r = r' /\ c = c'.
Proof.
  unfold screen_fits, on_screen, cell_index.
  intros (Hc & _) (Hrow & Hcol) (Hrow' & Hcol') H.
  assert (r = r') by nia. subst r'. split; [reflexivity|lia].
Qed.

End Places.

Lemma writes_functional st a b cs : writes st a cs -> writes st b cs -> a = b.
Proof.
  intros (Hs & Hb & Hm & Ht & Hio) (Hs' & Hb' & Hm' & Ht' & Hio').
  destruct a, b. cbn in *. congruence.
Qed.

Lemma writes_nothing st st' : writes st st' [] -> st' = st.
Proof. intros H. exact (writes_functional st st' st [] H (writes_refl st)). Qed.

Section FillTheorems.
Context {hdr : video_h}.

Lemma vid_fill_row_run row col ch attr count st :
  writes st (vid_fill row col ch attr count st)
    (row_run st row col (repeat ch (Z.to_nat count)) (vid_map_attr st attr)).
Proof.
  rewrite <- cell_run_row_run, <- out_attr_mapped. apply vid_fill_writes.
Qed.

Lemma vid_fill_count row col ch attr count st :
  length (cells_written st (vid_fill row col ch attr count st)) = Z.to_nat count.
Proof.
  rewrite (writes_cells_written _ _ _ (vid_fill_row_run row col ch attr count st)).
  rewrite row_run_length, repeat_length. reflexivity.
Qed.

Lemma vid_fill_nothing row col ch attr count st :
  count <= 0 -> vid_fill row col ch attr count st = st.
Proof.
  intros Hle. apply writes_nothing.
  pose proof (vid_fill_row_run row col ch attr count st) as H.
  replace (Z.to_nat count) with O in H by lia. exact H.
Qed.

(** X1. [vid_fill] writes [max 0 count] cells; the [k]-th is the cell [k]
    columns to the right of (row, col), and a column index that runs
    past the row lands in the following rows, [VID_COLS] columns per
    row.  A count that is not positive leaves the state as it was. *)
Theorem vid_fill_row_major (row col ch attr count : Z) (st : state) :
  cells_written st (vid_fill row col ch attr count st)
  = row_run st row col (repeat ch (Z.to_nat count)) (vid_map_attr st attr)
  /\ length (cells_written st (vid_fill row col ch attr count st))
     = Z.to_nat count
  /\ (forall q, cell_ptr st row (col + q * VID_COLS) = cell_ptr st (row + q) col)
  /\ (count <= 0 -> vid_fill row col ch attr count st = st).
Proof.
  pose proof (vid_fill_row_run row col ch attr count st) as H.
  rewrite (writes_cells_written _ _ _ H).
  split; [reflexivity|]. split; [|split].
  - rewrite row_run_length, repeat_length. reflexivity.
  - intros q. apply cell_ptr_next_row.
  - apply vid_fill_nothing.
Qed.

Lemma read_cell_after st st' cs row col :
  writes st st' cs ->
  read_cell st' row col
  = match load st' (cell_ptr st row col),
          load st' (far_add (cell_ptr st row col) 1) with
    | Some c, Some a => Some (c, a)
    | _, _ => None
    end.
Proof.
  intros H. unfold read_cell. rewrite (writes_cell_ptr _ _ _ _ _ H). reflexivity.
Qed.

(** A cell inside a filled run reads back the fill. *)
Lemma fill_reads_inside row col ch attr count st k :
  0 <= k < count ->
  read_cell (vid_fill row col ch attr count st) row (col + k)
  = Some (byte ch, byte (vid_map_attr st attr)).
Proof.
  intros Hk.
  pose proof (vid_fill_row_run row col ch attr count st) as H.
  rewrite (read_cell_after _ _ _ _ _ H).
  assert (Hmem : In (mkCell (cell_ptr st row (col + k)) (byte ch)
                       (byte (vid_map_attr st attr)))
                    (row_run st row col (repeat ch (Z.to_nat count))
                       (vid_map_attr st attr))).
  { apply in_row_run_repeat. exists k. split; [lia|reflexivity]. }
  rewrite (load_writes_char _ _ _ _ (byte ch) H).
  - rewrite (load_writes_attr _ _ _ _ (byte (vid_map_attr st attr)) H).
    + reflexivity.
    + eexists. split; [exact Hmem|reflexivity].
    + intros c Hc _. apply in_row_run_repeat in Hc.
      destruct Hc as (j & _ & ->). reflexivity.
    + intros c Hc E. apply in_row_run_repeat in Hc.
      destruct Hc as (j & _ & ->). cbn [cell_at] in E.
      symmetry in E. exact (attr_ptr_not_char _ _ _ _ _ E).
  - eexists. split; [exact Hmem|reflexivity].
  - intros c Hc _. apply in_row_run_repeat in Hc.
    destruct Hc as (j & _ & ->). reflexivity.
  - intros c Hc E. apply in_row_run_repeat in Hc.
    destruct Hc as (j & _ & ->). cbn [cell_at] in E.
    exact (attr_ptr_not_char _ _ _ _ _ E).
Qed.

(** A cell outside a filled run keeps what it held. *)
Lemma fill_keeps_outside row col ch attr count st r c :
  0 <= cell_index row col ->
  cell_index row col + count <= 32768 ->
  0 <= cell_index r c < 32768 ->
  ~ (cell_index row col <= cell_index r c < cell_index row col + count) ->
  read_cell (vid_fill row col ch attr count st) r c = read_cell st r c.
Proof.
  intros H0 Hend Hrc Hout.
  pose proof (vid_fill_row_run row col ch attr count st) as H.
  rewrite (read_cell_after _ _ _ _ _ H). unfold read_cell.
  assert (Hfar : forall x, In x (row_run st row col (repeat ch (Z.to_nat count))
                                   (vid_map_attr st attr)) ->
                 exists j, 0 <= j < count /\ cell_at x = cell_ptr st row (col + j)).
  { intros x Hx. apply in_row_run_repeat in Hx.
    destruct Hx as (j & Hj & ->). exists j. split; [lia|reflexivity]. }
  rewrite !(load_writes_absent _ _ _ _ H); [reflexivity| |].
  - intros x Hx. destruct (Hfar x Hx) as (j & Hj & ->). split.
    + intros E. symmetry in E. exact (attr_ptr_not_char _ _ _ _ _ E).
    + apply cell_ptr_distinct; unfold cell_index in *; lia.
  - intros x Hx. destruct (Hfar x Hx) as (j & Hj & ->). split.
    + apply cell_ptr_distinct; unfold cell_index in *; lia.
    + apply attr_ptr_not_char.
Qed.

(** X2. After [vid_fill], each of the [count] cells from (row, col) on
    reads back the fill character and the mapped attribute; a cell
    whose number lies outside the run, the run staying within the
    first 32768 cells of the buffer, reads what it read before. *)
Theorem vid_fill_read_back (row col ch attr count : Z) (st : state) :
  (forall k, 0 <= k < count ->
     read_cell (vid_fill row col ch attr count st) row (col + k)
     = Some (byte ch, byte (vid_map_attr st attr)))
  /\ (0 <= cell_index row col ->
      cell_index row col + count <= 32768 ->
      forall r c,
        0 <= cell_index r c < 32768 ->
        ~ (cell_index row col <= cell_index r c < cell_index row col + count) ->
        read_cell (vid_fill row col ch attr count st) r c = read_cell st r c).
Proof.
  split.
  - intros k Hk. apply fill_reads_inside, Hk.
  - intros H0 Hend r c Hrc Hout. apply fill_keeps_outside; assumption.
Qed.

End FillTheorems.

Lemma vid_fill_row_major_witness :
  @vid_fill ibm_text 3 70 42 0x07 0 (descriptor VID_CGA 0) = descriptor VID_CGA 0
  /\ @cell_ptr ibm_text (descriptor VID_CGA 0) 3 (70 + 1 * 80)
     = @cell_ptr ibm_text (descriptor VID_CGA 0) 4 70.
Proof.
  destruct (@vid_fill_row_major ibm_text 3 70 42 0x07 0 (descriptor VID_CGA 0))
    as (_ & _ & Hwrap & Hnop).
  split; [apply Hnop; lia|exact (Hwrap 1)].
Defined.

Lemma vid_fill_read_back_witness :
  @read_cell ibm_text (@vid_fill ibm_text 1 78 42 0x1E 5 (descriptor VID_MDA 1))
     1 (78 + 3)
  = Some (42, 0x70)
  /\ @read_cell ibm_text (@vid_fill ibm_text 1 78 42 0x1E 5 (descriptor VID_MDA 1))
       1 77
     = @read_cell ibm_text (descriptor VID_MDA 1) 1 77.
Proof.
  destruct (@vid_fill_read_back ibm_text 1 78 42 0x1E 5 (descriptor VID_MDA 1))
    as (Hin & Hout).
  assert (H3 : 0 <= 3 < 5) by lia.
  split.
  - rewrite (Hin 3 H3). reflexivity.
  - apply Hout; vm_compute; intuition discriminate.
Defined.

Section ScreenTheorems.
Context {hdr : video_h}.

Lemma read_cell_same_index st r c r' c' :
  cell_index r c = cell_index r' c' -> read_cell st r c = read_cell st r' c'.
Proof.
  intros H. unfold read_cell. rewrite (cell_ptr_same_index st r c r' c' H).
  reflexivity.
Qed.

(** X3. On a screen whose cell count is an [int], [vid_clear] writes
    [VID_ROWS * VID_COLS] cells and afterwards every cell of the screen
    reads back a space under the mapped attribute. *)
Theorem vid_clear_whole_screen (attr : Z) (st : state) :
  screen_fits ->
  length (cells_written st (vid_clear attr st)) = Z.to_nat (VID_ROWS * VID_COLS)
  /\ forall r c, on_screen r c ->
       read_cell (vid_clear attr st) r c = Some (32, byte (vid_map_attr st attr)).
Proof.
  intros Hfit. unfold vid_clear.
  assert (Hcount : wrap16 (VID_ROWS * VID_COLS) = VID_ROWS * VID_COLS).
  { apply wrap16_small. destruct Hfit as (Hc & Hr & Hle).
    unfold in_range, min_int, max_int in *. nia. }
  rewrite Hcount. split.
  - apply vid_fill_count.
  - intros r c Hrc.
    destruct (on_screen_index r c Hfit Hrc) as [Hidx _].
    rewrite (read_cell_same_index _ r c 0 (0 + cell_index r c))
      by (unfold cell_index; lia).
    apply (fill_reads_inside 0 0 32 attr). exact Hidx.
Qed.

(** X4. On such a screen, for rows [start_row] and [end_row] of the
    screen, [vid_clear_rows] makes every cell of the rows
    [start_row .. end_row] read back a space under the mapped attribute
    and leaves every cell of the other rows as it read before; with
    [end_row < start_row] it changes nothing. *)
Theorem vid_clear_rows_band (start_row end_row attr : Z) (st : state) :
  screen_fits ->
  0 <= start_row < VID_ROWS ->
  0 <= end_row < VID_ROWS ->
  (forall r c, on_screen r c -> start_row <= r <= end_row ->
     read_cell (vid_clear_rows start_row end_row attr st) r c
     = Some (32, byte (vid_map_attr st attr)))
  /\ (forall r c, on_screen r c -> r < start_row \/ end_row < r ->
        read_cell (vid_clear_rows start_row end_row attr st) r c
        = read_cell st r c)
  /\ (end_row < start_row -> vid_clear_rows start_row end_row attr st = st).
Proof.
  intros Hfit Hs He. unfold vid_clear_rows.
  assert (Hbounds := Hfit). destruct Hbounds as (Hc & Hr & Hle).
  unfold max_int in Hle.
  assert (Hcount : wrap16 (wrap16 (wrap16 (end_row - start_row) + 1) * VID_COLS)
                   = (end_row - start_row + 1) * VID_COLS).
  { rewrite (wrap16_small (end_row - start_row))
      by (unfold in_range, min_int, max_int; nia).
    rewrite (wrap16_small (end_row - start_row + 1))
      by (unfold in_range, min_int, max_int; nia).
    apply wrap16_small. unfold in_range, min_int, max_int. nia. }
  rewrite Hcount. split; [|split].
  - intros r c Hrc Hband.
    destruct Hrc as (Hrow & Hcol).
    rewrite (read_cell_same_index _ r c start_row
               (0 + ((r - start_row) * VID_COLS + c)))
      by (unfold cell_index; lia).
    apply (fill_reads_inside start_row 0 32 attr). nia.
  - intros r c Hrc Hout.
    destruct (on_screen_index r c Hfit Hrc) as [Hidx _].
    destruct Hrc as (Hrow & Hcol).
    apply fill_keeps_outside; unfold cell_index in *; try nia.
  - intros Hempty. apply vid_fill_nothing. nia.
Qed.

(** Writing one cell is filling a run of one. *)
Lemma vid_putc_is_fill row col ch attr st :
  vid_putc row col ch attr st = vid_fill row col ch attr 1 st.
Proof.
  apply (writes_functional st _ _
           [mkCell (cell_ptr st row col) (byte ch) (byte (out_attr st attr))]).
  - apply vid_putc_writes.
  - apply (vid_fill_writes row col ch attr 1 st).
Qed.

(** X5. After [vid_putc] the cell reads back the character and the
    mapped attribute, each cut to a byte; on a screen whose cell count
    is an [int], every other cell of the screen reads what it read
    before. *)
Theorem vid_putc_read_back (row col ch attr : Z) (st : state) :
  read_cell (vid_putc row col ch attr st) row col
  = Some (byte ch, byte (vid_map_attr st attr))
  /\ (screen_fits -> on_screen row col ->
      forall r c, on_screen r c -> ~ (r = row /\ c = col) ->
        read_cell (vid_putc row col ch attr st) r c = read_cell st r c).
Proof.
  rewrite vid_putc_is_fill. split.
  - rewrite (read_cell_same_index _ row col row (col + 0))
      by (unfold cell_index; lia).
    apply fill_reads_inside. lia.
  - intros Hfit Hhere r c Hrc Hother.
    destruct (on_screen_index row col Hfit Hhere) as [Hi Hmax].
    destruct (on_screen_index r c Hfit Hrc) as [Hj _].
    apply fill_keeps_outside; try lia.
    intros Hin. apply Hother.
    apply (on_screen_index_inj r c row col Hfit Hrc Hhere). lia.
Qed.

End ScreenTheorems.

Lemma ibm_text_fits : @screen_fits ibm_text.
Proof. repeat split; vm_compute; congruence. Qed.

Lemma vid_clear_whole_screen_witness :
  length (cells_written (descriptor VID_CGA 0)
            (@vid_clear ibm_text 0x1F (descriptor VID_CGA 0))) = 2000%nat
  /\ @read_cell ibm_text (@vid_clear ibm_text 0x1F (descriptor VID_CGA 0)) 24 79
     = Some (32, 0x1F).
Proof.
  destruct (@vid_clear_whole_screen ibm_text 0x1F (descriptor VID_CGA 0)
              ibm_text_fits) as (Hlen & Hread).
  split; [exact Hlen|].
  assert (Hon : @on_screen ibm_text 24 79) by (repeat split; vm_compute; congruence).
  rewrite (Hread 24 79 Hon). reflexivity.
Defined.

Lemma vid_clear_rows_band_witness :
  @read_cell ibm_text (@vid_clear_rows ibm_text 3 5 0x1F (descriptor VID_CGA 0)) 4 10
  = Some (32, 0x1F)
  /\ @read_cell ibm_text (@vid_clear_rows ibm_text 3 5 0x1F (descriptor VID_CGA 0)) 6 0
     = @read_cell ibm_text (descriptor VID_CGA 0) 6 0
  /\ @vid_clear_rows ibm_text 5 3 0x1F (descriptor VID_CGA 0) = descriptor VID_CGA 0.
Proof.
  assert (R3 : 0 <= 3 < @VID_ROWS ibm_text) by (vm_compute; intuition congruence).
  assert (R5 : 0 <= 5 < @VID_ROWS ibm_text) by (vm_compute; intuition congruence).
  destruct (@vid_clear_rows_band ibm_text 3 5 0x1F (descriptor VID_CGA 0)
              ibm_text_fits R3 R5) as (Hin & Hout & _).
  destruct (@vid_clear_rows_band ibm_text 5 3 0x1F (descriptor VID_CGA 0)
              ibm_text_fits R5 R3) as (_ & _ & Hnop).
  assert (O1 : @on_screen ibm_text 4 10) by (repeat split; vm_compute; congruence).
  assert (O2 : @on_screen ibm_text 6 0) by (repeat split; vm_compute; congruence).
  split; [|split].
  - rewrite (Hin 4 10 O1) by lia. reflexivity.
  - apply (Hout 6 0 O2). lia.
  - apply Hnop. lia.
Defined.

Lemma vid_putc_read_back_witness :
  @read_cell ibm_text (@vid_putc ibm_text 2 3 65 0x1F
                         (@vid_putc ibm_text 2 4 66 0x1F (descriptor VID_CGA 0))) 2 4
  = @read_cell ibm_text (@vid_putc ibm_text 2 4 66 0x1F (descriptor VID_CGA 0)) 2 4.
Proof.
  destruct (@vid_putc_read_back ibm_text 2 3 65 0x1F
              (@vid_putc ibm_text 2 4 66 0x1F (descriptor VID_CGA 0)))
    as (_ & Hframe).
  assert (O1 : @on_screen ibm_text 2 3) by (repeat split; vm_compute; congruence).
  assert (O2 : @on_screen ibm_text 2 4) by (repeat split; vm_compute; congruence).
  apply (Hframe ibm_text_fits O1 2 4 O2). intros [_ H]. discriminate H.
Defined.

(** ** Strings *)

Lemma row_run_app {hdr : video_h} st row col l1 l2 a :
  row_run st row col (l1 ++ l2) a
  = row_run st row col l1 a
    ++ row_run st row (col + Z.of_nat (length l1)) l2 a.
Proof.
  revert col. induction l1 as [|c l1 IH]; intros col.
  - cbn. rewrite Z.add_0_r. reflexivity.
  - cbn [app row_run length]. rewrite IH. cbn [app]. do 3 f_equal. lia.
Qed.


Section StringTheorems.
Context {hdr : video_h}.

(** The loop of [vid_puts]. *)
Lemma puts_loop_writes a : forall s p st,
  writes st (puts_loop a s p st) (cell_run p (c_text s) a).
Proof.
  induction s as [|c s IH]; intros p st.
  - apply writes_refl.
  - cbn [puts_loop c_text deref]. unfold truthy.
    destruct (Z.of_N (N_of_ascii c) =? 0); cbn [negb].
    + apply writes_refl.
    + cbn [cell_run].
      exact (writes_trans _ _ _ [_] _ (put_cell_writes p _ a st)
               (IH (far_add p 2) (put_cell p (Z.of_N (N_of_ascii c)) a st))).
Qed.

Lemma vid_puts_writes row col s attr st :
  writes st (vid_puts row col s attr st)
    (row_run st row col (c_text s) (vid_map_attr st attr)).
Proof.
  rewrite <- cell_run_row_run, <- out_attr_mapped. apply puts_loop_writes.
Qed.





(** X7. A fixed-width write whose width covers the string is the plain
    write of the string followed by a fill with spaces of the cells
    that remain. *)
Theorem vid_putsn_is_puts_then_pad (row col : Z) (s : string) (n attr : Z)
  (st : state) :
  Z.of_nat (length (c_text s)) <= n ->
  vid_putsn row col s n attr st
  = vid_fill row (col + Z.of_nat (length (c_text s))) 32 attr
      (n - Z.of_nat (length (c_text s)))
      (vid_puts row col s attr st).
Proof.
  intros Hlen.
  pose proof (vid_puts_writes row col s attr st) as Hputs.
  pose proof (vid_fill_row_run row (col + Z.of_nat (length (c_text s))) 32 attr
                (n - Z.of_nat (length (c_text s)))
                (vid_puts row col s attr st)) as Hfill.
  rewrite (row_run_same_base _ _ _ _ _ _ _ Hputs) in Hfill.
  rewrite <- !out_attr_mapped, (writes_out_attr _ _ _ _ Hputs),
    !out_attr_mapped in Hfill.
  pose proof (writes_trans _ _ _ _ _ Hputs Hfill) as Hboth.
  rewrite <- row_run_app in Hboth.
  apply (writes_functional st _ _ _ (vid_putsn_writes row col s n attr st)).
  rewrite cell_run_row_run, out_attr_mapped.
  replace (fixed_text (c_text s) (Z.to_nat n))
    with (c_text s ++ repeat 32 (Z.to_nat (n - Z.of_nat (length (c_text s))))).
  - exact Hboth.
  - unfold fixed_text. rewrite firstn_all2 by lia. f_equal. f_equal. lia.
Qed.

(** A fixed-width write of the empty string is a fill with spaces. *)
Lemma vid_putsn_empty_is_fill (row col n attr : Z) (st : state) :
  vid_putsn row col "" n attr st = vid_fill row col 32 attr n st.
Proof.
  apply (writes_functional st _ _ _ (vid_putsn_writes row col "" n attr st)).
  replace (fixed_text (c_text "") (Z.to_nat n)) with (repeat 32 (Z.to_nat n)).
  - apply vid_fill_writes.
  - unfold fixed_text. cbn [c_text length]. rewrite firstn_nil, Nat.sub_0_r.
    reflexivity.
Qed.

End StringTheorems.



Lemma vid_putsn_is_puts_then_pad_witness :
  @vid_putsn ibm_text 1 2 "AB" 5 0x07 (descriptor VID_CGA 0)
  = @vid_fill ibm_text 1 (2 + 2) 32 0x07 (5 - 2)
      (@vid_puts ibm_text 1 2 "AB" 0x07 (descriptor VID_CGA 0)).
Proof.
  apply (@vid_putsn_is_puts_then_pad ibm_text 1 2 "AB" 5 0x07 (descriptor VID_CGA 0)).
  cbn. lia.
Defined.

(** ** The outline of a box *)

Section OutlineTheorems.
Context {hdr : video_h}.

Lemma in_col_run st row col ch a k : forall i x,
  In x (col_run st row col i k ch a) <->
  exists j, 0 <= j < Z.of_nat k
            /\ x = mkCell (cell_ptr st (row + (i + j)) col) (byte ch) (byte a).
Proof.
  induction k as [|k IH]; intros i x.
  - cbn. split; [tauto|]. intros (j & Hj & _). lia.
  - cbn [col_run In]. rewrite IH, cell_ptr_wrap16_row. split.
    + intros [<- | (j & Hj & ->)].
      * exists 0. split; [lia|]. rewrite Z.add_0_r. reflexivity.
      * exists (j + 1). split; [lia|]. do 3 f_equal. lia.
    + intros (j & Hj & ->).
      destruct (Z.eq_dec j 0) as [-> | Hnz].
      * left. rewrite Z.add_0_r. reflexivity.
      * right. exists (j - 1). split; [lia|]. do 3 f_equal. lia.
Qed.

(** The members of the three groups of cells of a proper box, by
    coordinates. *)
Lemma in_box_cells r1 c1 r2 c2 attr st x :
  0 <= r1 -> r1 < r2 -> r2 <= max_int ->
  0 <= c1 -> c1 < c2 -> c2 <= max_int ->
  In x (cells_written st (vid_box r1 c1 r2 c2 attr st)) <->
  exists r c, on_outline r1 c1 r2 c2 r c
              /\ x = outline_cell st r1 c1 r2 c2 (byte (vid_map_attr st attr)) r c.
Proof.
  unfold max_int. intros Hr1 Hr Hr2 Hc1 Hc Hc2.
  destruct (box_parts r1 c1 r2 c2 attr st) as (_ & _ & _ & Hall).
  rewrite Hall, !in_app_iff. clear Hall.
  unfold corner_list, hedge_list, vedge_list. cbv zeta.
  rewrite (wrap16_small (c1 + 1)), (wrap16_small (r1 + 1))
    by (unfold in_range, min_int, max_int; lia).
  rewrite !cell_run_row_run, !in_app_iff, !in_row_run_repeat, !in_col_run.
  rewrite out_attr_mapped.
  assert (Hh : box_hlen c1 c2 = c2 - c1 - 1).
  { unfold box_hlen. rewrite (wrap16_small (c2 - c1));
      [apply wrap16_small|]; unfold in_range, min_int, max_int; lia. }
  assert (Hv : box_vlen r1 r2 = r2 - r1 - 1).
  { unfold box_vlen. rewrite (wrap16_small (r2 - r1));
      [apply wrap16_small|]; unfold in_range, min_int, max_int; lia. }
  rewrite Hh, Hv, !Z2Nat.id by lia.
  assert (Hrow : forall j, r1 + 1 + (0 + j) = r1 + 1 + j) by (intros; lia).
  unfold outline_cell, outline_glyph, on_outline. cbn [In]. split.
  - intros [[H|[H|[H|[H|[]]]]] | [[(k & Hk & ->)|(k & Hk & ->)]
                                  | [(k & Hk & ->)|(k & Hk & ->)]]].
    + exists r1, c1. subst x. split; [lia|]. rewrite !Z.eqb_refl. reflexivity.
    + exists r1, c2. subst x. split; [lia|].
      rewrite !Z.eqb_refl, (proj2 (Z.eqb_neq c2 c1)) by lia. reflexivity.
    + exists r2, c1. subst x. split; [lia|].
      rewrite !Z.eqb_refl, (proj2 (Z.eqb_neq r2 r1)) by lia. reflexivity.
    + exists r2, c2. subst x. split; [lia|].
      rewrite !Z.eqb_refl, (proj2 (Z.eqb_neq r2 r1)),
        (proj2 (Z.eqb_neq c2 c1)) by lia.
      reflexivity.
    + exists r1, (c1 + 1 + k). split; [lia|].
      rewrite Z.eqb_refl, (proj2 (Z.eqb_neq (c1 + 1 + k) c1)),
        (proj2 (Z.eqb_neq (c1 + 1 + k) c2)), (proj2 (Z.eqb_neq r1 r2)) by lia.
      reflexivity.
    + exists r2, (c1 + 1 + k). split; [lia|].
      rewrite Z.eqb_refl, (proj2 (Z.eqb_neq (c1 + 1 + k) c1)),
        (proj2 (Z.eqb_neq (c1 + 1 + k) c2)), (proj2 (Z.eqb_neq r2 r1)) by lia.
      cbn [andb orb]. reflexivity.
    + exists (r1 + 1 + k), c1. rewrite Hrow. split; [lia|].
      rewrite (proj2 (Z.eqb_neq (r1 + 1 + k) r1)),
        (proj2 (Z.eqb_neq (r1 + 1 + k) r2)) by lia.
      reflexivity.
    + exists (r1 + 1 + k), c2. rewrite Hrow. split; [lia|].
      rewrite (proj2 (Z.eqb_neq (r1 + 1 + k) r1)),
        (proj2 (Z.eqb_neq (r1 + 1 + k) r2)) by lia.
      reflexivity.
  - intros (r & c & (Hrr & Hcc & Hedge) & ->).
    destruct (Z.eqb_spec r r1) as [-> | Nr1];
      [|destruct (Z.eqb_spec r r2) as [-> | Nr2]];
      (destruct (Z.eqb_spec c c1) as [-> | Nc1];
       [|destruct (Z.eqb_spec c c2) as [-> | Nc2]]); cbn [andb orb];
      try (left; tauto); right.
    + left. left. exists (c - c1 - 1). split; [lia|].
      rewrite ?andb_false_r. replace (c1 + 1 + (c - c1 - 1)) with c by lia.
      reflexivity.
    + left. right. exists (c - c1 - 1). split; [lia|].
      rewrite ?andb_false_r. replace (c1 + 1 + (c - c1 - 1)) with c by lia.
      reflexivity.
    + right. left. exists (r - r1 - 1). split; [lia|].
      replace (r1 + 1 + (0 + (r - r1 - 1))) with r by lia. reflexivity.
    + right. right. exists (r - r1 - 1). split; [lia|].
      replace (r1 + 1 + (0 + (r - r1 - 1))) with r by lia. reflexivity.
Qed.

Lemma vid_box_writes r1 c1 r2 c2 attr st :
  writes st (vid_box r1 c1 r2 c2 attr st)
    (cells_written st (vid_box r1 c1 r2 c2 attr st)).
Proof.
  pose proof (box_corners_writes r1 c1 r2 c2 attr st) as Hc.
  pose proof (box_hedges_writes r1 c1 r2 c2 attr
                (box_corners r1 c1 r2 c2 attr st)) as Hh.
  pose proof (box_vedges_writes r1 c1 r2 c2 attr
                (box_hedges r1 c1 r2 c2 attr
                   (box_corners r1 c1 r2 c2 attr st))) as Hv.
  pose proof (writes_trans _ _ _ _ _ (writes_trans _ _ _ _ _ Hc Hh) Hv) as H.
  fold (vid_box r1 c1 r2 c2 attr st) in H.
  rewrite (writes_cells_written _ _ _ H). exact H.
Qed.

(** On a screen that fits, a place of the screen is one cell. *)
Lemma cell_ptr_on_screen_inj st r c r' c' :
  screen_fits -> on_screen r c -> on_screen r' c' ->
  cell_ptr st r c = cell_ptr st r' c'
  \/ far_add (cell_ptr st r c) 1 = far_add (cell_ptr st r' c') 1 ->
  r = r' /\ c = c'.
Proof.
  intros Hfit H1 H2 Heq.
  destruct (on_screen_index r c Hfit H1) as [Hi Hmax].
  destruct (on_screen_index r' c' Hfit H2) as [Hj _].
  destruct (Z.eq_dec (cell_index r c) (cell_index r' c')) as [E|N].
  - exact (on_screen_index_inj r c r' c' Hfit H1 H2 E).
  - exfalso.
    destruct (cell_ptr_distinct st r c r' c') as [Hp Ha]; [lia|lia|exact N|].
    destruct Heq; contradiction.
Qed.

(** X8. A box with [r1 < r2] and [c1 < c2] stores, and stores nothing
    else, a list of cells, each as its glyph at the cell's address and
    the mapped attribute in the byte after it; these cells are the
    cells of its outline and no others, [2*(r2-r1) + 2*(c2-c1)] of
    them: the four corner glyphs at the corners, the horizontal glyph
    along the top and bottom rows, the vertical glyph down the sides. *)
Theorem vid_box_outline (r1 c1 r2 c2 attr : Z) (st : state) :
  0 <= r1 -> r1 < r2 -> r2 <= max_int ->
  0 <= c1 -> c1 < c2 -> c2 <= max_int ->
  writes st (vid_box r1 c1 r2 c2 attr st)
    (cells_written st (vid_box r1 c1 r2 c2 attr st))
  /\ (forall x,
     In x (cells_written st (vid_box r1 c1 r2 c2 attr st)) <->
     exists r c, on_outline r1 c1 r2 c2 r c
                 /\ x = outline_cell st r1 c1 r2 c2
                          (byte (vid_map_attr st attr)) r c)
  /\ length (cells_written st (vid_box r1 c1 r2 c2 attr st))
     = Z.to_nat (2 * (r2 - r1) + 2 * (c2 - c1)).
Proof.
  intros Hr1 Hr Hr2 Hc1 Hc Hc2. split; [apply vid_box_writes|]. split.
  - intros x. apply in_box_cells; assumption.
  - destruct (box_parts r1 c1 r2 c2 attr st) as (_ & _ & _ & Hall).
    rewrite Hall, !length_app, hedge_list_length, vedge_list_length.
    unfold max_int in *.
    assert (Hh : box_hlen c1 c2 = c2 - c1 - 1).
    { unfold box_hlen. rewrite (wrap16_small (c2 - c1));
        [apply wrap16_small|]; unfold in_range, min_int, max_int; lia. }
    assert (Hv : box_vlen r1 r2 = r2 - r1 - 1).
    { unfold box_vlen. rewrite (wrap16_small (r2 - r1));
        [apply wrap16_small|]; unfold in_range, min_int, max_int; lia. }
    rewrite Hh, Hv. cbn [corner_list length]. lia.
Qed.

(** X9. On a screen that fits, after a box that lies on the screen
    every cell of its outline reads back its glyph under the mapped
    attribute, and every other cell of the screen, inside the box or
    outside it, reads what it read before. *)
Theorem vid_box_read_back (r1 c1 r2 c2 attr : Z) (st : state) :
  screen_fits ->
  0 <= r1 -> r1 < r2 -> r2 < VID_ROWS ->
  0 <= c1 -> c1 < c2 -> c2 < VID_COLS ->
  forall r c, on_screen r c ->
    (on_outline r1 c1 r2 c2 r c ->
     read_cell (vid_box r1 c1 r2 c2 attr st) r c
     = Some (byte (outline_glyph r1 c1 r2 c2 r c), byte (vid_map_attr st attr)))
    /\ (~ on_outline r1 c1 r2 c2 r c ->
        read_cell (vid_box r1 c1 r2 c2 attr st) r c = read_cell st r c).
Proof.
  intros Hfit Hr1 Hr Hr2 Hc1 Hc Hc2 r c Hrc.
  assert (Hbounds := Hfit). destruct Hbounds as (Hcols & Hrows & Hle).
  unfold max_int in Hle.
  assert (Hr2' : r2 <= max_int) by (unfold max_int; nia).
  assert (Hc2' : c2 <= max_int) by (unfold max_int; nia).
  pose proof (vid_box_writes r1 c1 r2 c2 attr st) as H.
  assert (Hmem : forall x,
            In x (cells_written st (vid_box r1 c1 r2 c2 attr st)) ->
            exists r' c', on_outline r1 c1 r2 c2 r' c' /\ on_screen r' c'
              /\ x = outline_cell st r1 c1 r2 c2
                       (byte (vid_map_attr st attr)) r' c').
  { intros x Hx. apply in_box_cells in Hx; try assumption.
    destruct Hx as (r' & c' & Hon & ->). exists r', c'.
    split; [exact Hon|]. split; [|reflexivity].
    destruct Hon as (? & ? & _). unfold on_screen. lia. }
  rewrite (read_cell_after _ _ _ _ _ H). split.
  - intros Hon.
    assert (Hhere : In (outline_cell st r1 c1 r2 c2
                          (byte (vid_map_attr st attr)) r c)
                       (cells_written st (vid_box r1 c1 r2 c2 attr st))).
    { apply in_box_cells; try assumption. exists r, c. split; [exact Hon|reflexivity]. }
    rewrite (load_writes_char _ _ _ _ (byte (outline_glyph r1 c1 r2 c2 r c)) H).
    + rewrite (load_writes_attr _ _ _ _ (byte (vid_map_attr st attr)) H).
      * reflexivity.
      * eexists. split; [exact Hhere|reflexivity].
      * intros x Hx _. destruct (Hmem x Hx) as (r' & c' & _ & _ & ->). reflexivity.
      * intros x Hx E. destruct (Hmem x Hx) as (r' & c' & _ & _ & ->).
        cbn [outline_cell cell_at] in E. symmetry in E.
        exact (attr_ptr_not_char _ _ _ _ _ E).
    + eexists. split; [exact Hhere|reflexivity].
    + intros x Hx E. destruct (Hmem x Hx) as (r' & c' & _ & Hscr & ->).
      cbn [outline_cell cell_at cell_ch] in *.
      destruct (cell_ptr_on_screen_inj st r' c' r c Hfit Hscr Hrc (or_introl E))
        as [-> ->].
      reflexivity.
    + intros x Hx E. destruct (Hmem x Hx) as (r' & c' & _ & _ & ->).
      cbn [outline_cell cell_at] in E.
      exact (attr_ptr_not_char _ _ _ _ _ E).
  - intros Hoff. unfold read_cell.
    rewrite !(load_writes_absent _ _ _ _ H); [reflexivity| |].
    + intros x Hx. destruct (Hmem x Hx) as (r' & c' & Hon & Hscr & ->).
      cbn [outline_cell cell_at]. split.
      * intros E. symmetry in E. exact (attr_ptr_not_char _ _ _ _ _ E).
      * intros E.
        destruct (cell_ptr_on_screen_inj st r' c' r c Hfit Hscr Hrc (or_intror E))
          as [-> ->].
        contradiction.
    + intros x Hx. destruct (Hmem x Hx) as (r' & c' & Hon & Hscr & ->).
      cbn [outline_cell cell_at]. split.
      * intros E.
        destruct (cell_ptr_on_screen_inj st r' c' r c Hfit Hscr Hrc (or_introl E))
          as [-> ->].
        contradiction.
      * apply attr_ptr_not_char.
Qed.

End OutlineTheorems.

Lemma vid_box_outline_witness :
  length (cells_written (descriptor VID_CGA 0)
            (@vid_box ibm_text 2 2 5 10 0x1F (descriptor VID_CGA 0))) = 22%nat.
Proof.
  assert (B0 : 0 <= 2) by lia. assert (B1 : 2 < 5) by lia.
  assert (B2 : 5 <= max_int) by (unfold max_int; lia).
  assert (B3 : 2 < 10) by lia.
  assert (B4 : 10 <= max_int) by (unfold max_int; lia).
  destruct (@vid_box_outline ibm_text 2 2 5 10 0x1F (descriptor VID_CGA 0)
              B0 B1 B2 B0 B3 B4) as (_ & _ & Hlen).
  exact Hlen.
Defined.

Lemma vid_box_read_back_witness :
  @read_cell ibm_text (@vid_box ibm_text 2 2 5 10 0x1F (descriptor VID_CGA 0)) 5 10
  = Some (0xD9, 0x1F)
  /\ @read_cell ibm_text (@vid_box ibm_text 2 2 5 10 0x1F (descriptor VID_CGA 0)) 3 5
     = @read_cell ibm_text (descriptor VID_CGA 0) 3 5.
Proof.
  assert (B0 : 0 <= 2) by lia. assert (B1 : 2 < 5) by lia.
  assert (B2 : 5 < @VID_ROWS ibm_text) by (vm_compute; reflexivity).
  assert (B3 : 2 < 10) by lia.
  assert (B4 : 10 < @VID_COLS ibm_text) by (vm_compute; reflexivity).
  assert (O1 : @on_screen ibm_text 5 10) by (repeat split; vm_compute; congruence).
  assert (O2 : @on_screen ibm_text 3 5) by (repeat split; vm_compute; congruence).
  destruct (@vid_box_read_back ibm_text 2 2 5 10 0x1F (descriptor VID_CGA 0)
              ibm_text_fits B0 B1 B2 B0 B3 B4 5 10 O1) as (Hin & _).
  destruct (@vid_box_read_back ibm_text 2 2 5 10 0x1F (descriptor VID_CGA 0)
              ibm_text_fits B0 B1 B2 B0 B3 B4 3 5 O2) as (_ & Hout).
  split.
  - rewrite Hin; [reflexivity|]. unfold on_outline. lia.
  - apply Hout. unfold on_outline. lia.
Defined.

(** ** Hexadecimal output *)

Lemma land_shiftr_field x b c :
  0 <= b -> 0 <= c ->
  Z.land (Z.shiftr x b) (Z.ones c) = (x / 2 ^ b) mod 2 ^ c.
Proof.
  intros Hb Hc. rewrite Z.land_ones, Z.shiftr_div_pow2 by lia. reflexivity.
Qed.

Lemma hex_digit_value n :
  0 <= n < 16 ->
  hex_value (char_at hex_digits n) = Some n
  /\ 48 <= char_at hex_digits n <= 70.
Proof.
  intros Hn.
  set (ok := fun k : nat =>
         let c := char_at hex_digits (Z.of_nat k) in
         match hex_value c with
         | Some v => (v =? Z.of_nat k) && (48 <=? c) && (c <=? 70)
         | None => false
         end).
  assert (Hall : forallb ok (seq 0 16) = true) by (vm_compute; reflexivity).
  rewrite forallb_forall in Hall.
  specialize (Hall (Z.to_nat n)). unfold ok in Hall. cbv zeta in Hall.
  rewrite Z2Nat.id in Hall by lia.
  assert (Hin : In (Z.to_nat n) (seq 0 16)) by (apply in_seq; lia).
  specialize (Hall Hin).
  destruct (hex_value (char_at hex_digits n)) as [v|]; [|discriminate].
  apply andb_prop in Hall. destruct Hall as [Hall Hhi].
  apply andb_prop in Hall. destruct Hall as [Hv Hlo].
  apply Z.eqb_eq in Hv. apply Z.leb_le in Hlo, Hhi.
  subst v. split; [reflexivity|lia].
Qed.

Lemma mod16_step a n :
  a mod (16 * 16 ^ Z.of_nat n) = a mod 16 + 16 * ((a / 16) mod 16 ^ Z.of_nat n).
Proof.
  apply Z.rem_mul_r; [lia|]. apply Z.pow_pos_nonneg; lia.
Qed.

Lemma pow16_succ n : 16 ^ Z.of_nat (S n) = 16 * 16 ^ Z.of_nat n.
Proof. rewrite Nat2Z.inj_succ, Z.pow_succ_r by lia. reflexivity. Qed.

(** The digits depend on the value modulo [16 ^ n] only. *)
Lemma hex_text_congr n : forall a b,
  a mod 16 ^ Z.of_nat n = b mod 16 ^ Z.of_nat n -> hex_text n a = hex_text n b.
Proof.
  induction n as [|n IH]; intros a b H; [reflexivity|].
  rewrite pow16_succ, !mod16_step in H.
  pose proof (Z.mod_pos_bound a 16 ltac:(lia)).
  pose proof (Z.mod_pos_bound b 16 ltac:(lia)).
  cbn [hex_text]. rewrite (IH (a / 16) (b / 16)) by lia.
  replace (b mod 16) with (a mod 16) by lia. reflexivity.
Qed.

Lemma hex_text_length n v : length (hex_text n v) = n.
Proof.
  revert v. induction n as [|n IH]; intros v; [reflexivity|].
  cbn [hex_text]. rewrite length_app, IH. cbn. lia.
Qed.

Lemma hex_text_app n m v :
  hex_text (n + m) v = hex_text n (v / 16 ^ Z.of_nat m) ++ hex_text m v.
Proof.
  revert v. induction m as [|m IH]; intros v.
  - rewrite Nat.add_0_r. cbn [hex_text Z.of_nat]. rewrite Z.pow_0_r, Z.div_1_r.
    symmetry. apply app_nil_r.
  - rewrite Nat.add_succ_r. cbn [hex_text]. rewrite IH, app_assoc.
    do 3 f_equal. rewrite pow16_succ, Zdiv_Zdiv by (try apply Z.pow_nonneg; lia).
    reflexivity.
Qed.

Lemma hex_number_from_app acc l1 l2 :
  hex_number_from acc (l1 ++ l2)
  = match hex_number_from acc l1 with
    | Some a => hex_number_from a l2
    | None => None
    end.
Proof.
  revert acc. induction l1 as [|c l1 IH]; intros acc; [reflexivity|].
  cbn [app hex_number_from]. destruct (hex_value c); [apply IH|reflexivity].
Qed.

(** Reading the digits back gives the value modulo [16 ^ n]. *)
Lemma hex_number_text n : forall acc v,
  hex_number_from acc (hex_text n v)
  = Some (acc * 16 ^ Z.of_nat n + v mod 16 ^ Z.of_nat n).
Proof.
  induction n as [|n IH]; intros acc v.
  - cbn. rewrite Z.mod_1_r. f_equal. lia.
  - cbn [hex_text]. rewrite hex_number_from_app, IH. cbn [hex_number_from].
    destruct (hex_digit_value (v mod 16) (Z.mod_pos_bound v 16 ltac:(lia)))
      as [Hval _].
    rewrite Hval. f_equal. rewrite pow16_succ, mod16_step. ring.
Qed.

Lemma hex_text_digits n : forall v,
  Forall (fun c => (48 <= c <= 57) \/ (65 <= c <= 70)) (hex_text n v).
Proof.
  induction n as [|n IH]; intros v; [constructor|].
  cbn [hex_text]. apply Forall_app. split; [apply IH|]. constructor; [|constructor].
  destruct (hex_digit_value (v mod 16) (Z.mod_pos_bound v 16 ltac:(lia)))
    as [Hval _].
  unfold hex_value in Hval.
  destruct ((48 <=? char_at hex_digits (v mod 16))
            && (char_at hex_digits (v mod 16) <=? 57)) eqn:E1.
  - left. apply andb_prop in E1. lia.
  - destruct ((65 <=? char_at hex_digits (v mod 16))
              && (char_at hex_digits (v mod 16) <=? 70)) eqn:E2; [|discriminate].
    right. apply andb_prop in E2. lia.
Qed.

Lemma map_cell_ch_row_run {hdr : video_h} st row col cs a :
  Forall (fun c => 0 <= c < 256) cs ->
  map cell_ch (row_run st row col cs a) = cs.
Proof.
  intros H. revert col. induction H as [|c cs Hc _ IH]; intros col; [reflexivity|].
  cbn [row_run map cell_ch]. rewrite IH, byte_small by lia. reflexivity.
Qed.

Section HexTheorems.
Context {hdr : video_h}.

Lemma row_run_wrap16_col st row col cs a :
  row_run st row (wrap16 col) cs a = row_run st row col cs a.
Proof. rewrite <- !cell_run_row_run, cell_ptr_wrap16_col. reflexivity. Qed.

Lemma vid_put_hex_byte_writes row col val attr st :
  writes st (vid_put_hex_byte row col val attr st)
    (row_run st row col (hex_text 2 val) (vid_map_attr st attr)).
Proof.
  unfold vid_put_hex_byte.
  change 0x0F with (Z.ones 4).
  rewrite land_shiftr_field, Z.land_ones by lia.
  change (2 ^ 4) with 16.
  pose proof (vid_putc_writes row col
                (char_at hex_digits ((val / 16) mod 16)) attr st) as H1.
  pose proof (vid_putc_writes row (wrap16 (col + 1))
                (char_at hex_digits (val mod 16)) attr
                (vid_putc row col (char_at hex_digits ((val / 16) mod 16)) attr st))
    as H2.
  rewrite (writes_cell_ptr _ _ _ _ _ H1), (writes_out_attr _ _ _ _ H1),
    cell_ptr_wrap16_col in H2.
  pose proof (writes_trans _ _ _ _ _ H1 H2) as H.
  rewrite !out_attr_mapped in H. exact H.
Qed.

Lemma vid_put_hex_word_writes row col val attr st :
  writes st (vid_put_hex_word row col val attr st)
    (row_run st row col (hex_text 4 val) (vid_map_attr st attr)).
Proof.
  unfold vid_put_hex_word. cbv zeta.
  pose proof (vid_put_hex_byte_writes row col
                (Z.land (Z.shiftr (val mod 65536) 8) 0xFF) attr st) as H1.
  pose proof (vid_put_hex_byte_writes row (wrap16 (col + 2))
                (Z.land (val mod 65536) 0xFF) attr
                (vid_put_hex_byte row col
                   (Z.land (Z.shiftr (val mod 65536) 8) 0xFF) attr st)) as H2.
  rewrite (row_run_same_base _ _ _ _ _ _ _ H1), row_run_wrap16_col in H2.
  rewrite <- !out_attr_mapped, (writes_out_attr _ _ _ _ H1), !out_attr_mapped in H2.
  pose proof (writes_trans _ _ _ _ _ H1 H2) as H.
  replace (hex_text 4 val)
    with (hex_text 2 (Z.land (Z.shiftr (val mod 65536) 8) 0xFF)
          ++ hex_text 2 (Z.land (val mod 65536) 0xFF)).
  - rewrite row_run_app, hex_text_length. exact H.
  - change 4%nat with (2 + 2)%nat. rewrite hex_text_app.
    change 0xFF with (Z.ones 8).
    rewrite land_shiftr_field, Z.land_ones by lia.
    change (16 ^ Z.of_nat 2) with 256. change (2 ^ 8) with 256.
    f_equal; apply hex_text_congr; change (16 ^ Z.of_nat 2) with 256.
    + rewrite Z.mod_mod by lia.
      pose proof (Z.div_mod val 65536 ltac:(lia)).
      pose proof (Z.mod_pos_bound val 65536 ltac:(lia)).
      pose proof (Z.div_mod (val mod 65536) 256 ltac:(lia)).
      pose proof (Z.mod_pos_bound (val mod 65536) 256 ltac:(lia)).
      replace val with (val mod 65536 + (val / 65536 * 256) * 256) at 2 by lia.
      rewrite Z.div_add by lia. rewrite Z_mod_plus_full. reflexivity.
    + rewrite Z.mod_mod by lia.
      pose proof (Z.div_mod val 65536 ltac:(lia)).
      replace val with (val mod 65536 + (val / 65536 * 256) * 256) at 2 by lia.
      rewrite Z_mod_plus_full. reflexivity.
Qed.

Lemma vid_put_hex_long_writes row col val attr st :
  writes st (vid_put_hex_long row col val attr st)
    (row_run st row col (hex_text 8 val) (vid_map_attr st attr)).
Proof.
  unfold vid_put_hex_long.
  pose proof (vid_put_hex_word_writes row col
                (Z.land (Z.shiftr val 16) 0xFFFF) attr st) as H1.
  pose proof (vid_put_hex_word_writes row (wrap16 (col + 4))
                (Z.land val 0xFFFF) attr
                (vid_put_hex_word row col
                   (Z.land (Z.shiftr val 16) 0xFFFF) attr st)) as H2.
  rewrite (row_run_same_base _ _ _ _ _ _ _ H1), row_run_wrap16_col in H2.
  rewrite <- !out_attr_mapped, (writes_out_attr _ _ _ _ H1), !out_attr_mapped in H2.
  pose proof (writes_trans _ _ _ _ _ H1 H2) as H.
  replace (hex_text 8 val)
    with (hex_text 4 (Z.land (Z.shiftr val 16) 0xFFFF)
          ++ hex_text 4 (Z.land val 0xFFFF)).
  - rewrite row_run_app, hex_text_length. exact H.
  - change 8%nat with (4 + 4)%nat. rewrite hex_text_app.
    change 0xFFFF with (Z.ones 16).
    rewrite land_shiftr_field, Z.land_ones by lia.
    change (16 ^ Z.of_nat 4) with 65536. change (2 ^ 16) with 65536.
    f_equal; apply hex_text_congr; change (16 ^ Z.of_nat 4) with 65536;
      apply Z.mod_mod; lia.
Qed.

(** What the cells of a hexadecimal rendering say. *)
Lemma hex_rendering st st' row col n val attr :
  writes st st' (row_run st row col (hex_text n val) (vid_map_attr st attr)) ->
  cells_written st st'
  = row_run st row col (hex_text n val) (vid_map_attr st attr)
  /\ map cell_ch (cells_written st st') = hex_text n val
  /\ hex_number (map cell_ch (cells_written st st'))
     = Some (val mod 16 ^ Z.of_nat n)
  /\ Forall (fun c => (48 <= c <= 57) \/ (65 <= c <= 70))
       (map cell_ch (cells_written st st')).
Proof.
  intros H. rewrite (writes_cells_written _ _ _ H).
  assert (Hch : map cell_ch (row_run st row col (hex_text n val)
                               (vid_map_attr st attr)) = hex_text n val).
  { apply map_cell_ch_row_run.
    eapply Forall_impl; [|apply hex_text_digits]. cbv beta. intros c Hc. lia. }
  rewrite Hch. repeat split.
  - unfold hex_number. rewrite hex_number_text. f_equal.
  - apply hex_text_digits.
Qed.

(** X10. [vid_put_hex_byte] writes two cells from (row, col) on: the
    two upper-case hexadecimal digits of the low byte of [val], high
    nibble first; read as a number they give [val mod 256]. *)
Theorem vid_put_hex_byte_text (row col val attr : Z) (st : state) :
  cells_written st (vid_put_hex_byte row col val attr st)
  = row_run st row col (hex_text 2 val) (vid_map_attr st attr)
  /\ map cell_ch (cells_written st (vid_put_hex_byte row col val attr st))
     = hex_text 2 val
  /\ hex_number (map cell_ch (cells_written st (vid_put_hex_byte row col val attr st)))
     = Some (val mod 256)
  /\ Forall (fun c => (48 <= c <= 57) \/ (65 <= c <= 70))
       (map cell_ch (cells_written st (vid_put_hex_byte row col val attr st))).
Proof.
  exact (hex_rendering st _ row col 2 val attr
           (vid_put_hex_byte_writes row col val attr st)).
Qed.

(** X11. [vid_put_hex_word] writes four cells: the four upper-case
    hexadecimal digits of the low 16 bits of [val], most significant
    first; read as a number they give [val mod 65536]. *)
Theorem vid_put_hex_word_text (row col val attr : Z) (st : state) :
  cells_written st (vid_put_hex_word row col val attr st)
  = row_run st row col (hex_text 4 val) (vid_map_attr st attr)
  /\ map cell_ch (cells_written st (vid_put_hex_word row col val attr st))
     = hex_text 4 val
  /\ hex_number (map cell_ch (cells_written st (vid_put_hex_word row col val attr st)))
     = Some (val mod 65536)
  /\ Forall (fun c => (48 <= c <= 57) \/ (65 <= c <= 70))
       (map cell_ch (cells_written st (vid_put_hex_word row col val attr st))).
Proof.
  exact (hex_rendering st _ row col 4 val attr
           (vid_put_hex_word_writes row col val attr st)).
Qed.

(** X12. [vid_put_hex_long] writes eight cells: the eight upper-case
    hexadecimal digits of the 32 bits of [val], most significant first;
    read as a number they give [val mod 2^32], the two's complement
    pattern of a negative [val]. *)
Theorem vid_put_hex_long_text (row col val attr : Z) (st : state) :
  cells_written st (vid_put_hex_long row col val attr st)
  = row_run st row col (hex_text 8 val) (vid_map_attr st attr)
  /\ map cell_ch (cells_written st (vid_put_hex_long row col val attr st))
     = hex_text 8 val
  /\ hex_number (map cell_ch (cells_written st (vid_put_hex_long row col val attr st)))
     = Some (val mod 4294967296)
  /\ Forall (fun c => (48 <= c <= 57) \/ (65 <= c <= 70))
       (map cell_ch (cells_written st (vid_put_hex_long row col val attr st))).
Proof.
  exact (hex_rendering st _ row col 8 val attr
           (vid_put_hex_long_writes row col val attr st)).
Qed.

End HexTheorems.

(** ** The attribute mapper on any [int] *)

Lemma byte_fields attr :
  Z.land (byte attr) 0x80 = Z.land attr 0x80
  /\ Z.land (byte attr) 0x0F = Z.land attr 0x0F
  /\ Z.land (Z.shiftr (byte attr) 4) 0x07 = Z.land (Z.shiftr attr 4) 0x07
  /\ Z.land (byte attr) 0x7F = Z.land attr 0x7F
  /\ Z.testbit (byte attr) 7 = Z.testbit attr 7.
Proof.
  unfold byte. repeat split.
  - rewrite <- Z.land_assoc. reflexivity.
  - rewrite <- Z.land_assoc. reflexivity.
  - rewrite Z.shiftr_land, <- Z.land_assoc. reflexivity.
  - rewrite <- Z.land_assoc. reflexivity.
  - rewrite Z.land_spec. change (Z.testbit 0xFF 7) with true.
    apply andb_true_r.
Qed.

(** With the mono flag set the mapper looks at the low byte only. *)
Lemma vid_map_attr_low_byte st attr :
  truthy (vid_mono st) = true ->
  vid_map_attr st attr = vid_map_attr st (byte attr).
Proof.
  intros Hmono. unfold vid_map_attr. rewrite Hmono. cbn [negb].
  destruct (byte_fields attr) as (Hb & Hf & Hg & _).
  cbv zeta. rewrite Hb, Hf, Hg. reflexivity.
Qed.

(** X13. With the mono flag set, for every [int] attribute: the result
    is one of the ten mono attributes, its blink bit is the blink bit
    of the argument, and it is an invisible attribute (color bits all
    zero) exactly when the color bits of the argument are all zero. *)
Theorem vid_map_attr_any_int (st : state) (attr : Z) :
  truthy (vid_mono st) = true ->
  In (vid_map_attr st attr) mono_outputs
  /\ Z.testbit (vid_map_attr st attr) 7 = Z.testbit attr 7
  /\ (Z.land (vid_map_attr st attr) 0x7F = 0 <-> Z.land attr 0x7F = 0).
Proof.
  intros Hmono.
  destruct (byte_fields attr) as (_ & _ & _ & Hcolor & Hblink).
  rewrite (vid_map_attr_low_byte st attr Hmono), <- Hcolor, <- Hblink.
  rewrite (vid_map_attr_mono st) by exact Hmono.
  set (f := vid_map_attr (descriptor VID_MDA 1)).
  assert (H := for_all_bytes (fun a =>
    existsb (Z.eqb (f a)) mono_outputs
    && Bool.eqb (Z.testbit (f a) 7) (Z.testbit a 7)
    && Bool.eqb (Z.land (f a) 0x7F =? 0) (Z.land a 0x7F =? 0))).
  specialize (H ltac:(vm_compute; reflexivity) (byte attr) (byte_range attr)).
  cbv beta in H.
  apply andb_prop in H. destruct H as [H Hinv].
  apply andb_prop in H. destruct H as [Hin Hbl].
  split; [|split].
  - apply existsb_exists in Hin. destruct Hin as (v & Hv & Heq).
    apply Z.eqb_eq in Heq. rewrite Heq. exact Hv.
  - apply Bool.eqb_prop, Hbl.
  - apply Bool.eqb_prop in Hinv. rewrite <- !Z.eqb_eq, Hinv. tauto.
Qed.

Lemma vid_map_attr_any_int_witness :
  In (vid_map_attr (descriptor VID_HERCULES 1) (-2)) mono_outputs
  /\ Z.testbit (vid_map_attr (descriptor VID_HERCULES 1) (-2)) 7 = true.
Proof.
  destruct (vid_map_attr_any_int (descriptor VID_HERCULES 1) (-2) eq_refl)
    as (Hin & Hblink & _).
  split; [exact Hin|]. rewrite Hblink. reflexivity.
Defined.

(** ** Lines *)

Section LineTheorems.
Context {hdr : video_h}.

(** X14. [vid_vline] stores, top to bottom and nothing else, [max 0 n]
    cells, each as the vertical glyph at the cell's address and the
    mapped attribute in the byte after it; the cells are those of the
    rows [row .. row + n - 1] of the column, [VID_COLS] cells apart in
    the buffer; with [n <= 0] it changes nothing. *)
Theorem vid_vline_column (row col n attr : Z) (st : state) :
  writes st (vid_vline row col n attr st)
    (col_run st row col 0 (Z.to_nat n) VID_BOX_V (vid_map_attr st attr))
  /\ cells_written st (vid_vline row col n attr st)
     = col_run st row col 0 (Z.to_nat n) VID_BOX_V (vid_map_attr st attr)
  /\ (forall x,
     In x (cells_written st (vid_vline row col n attr st)) <->
     exists k, 0 <= k < n
               /\ x = mkCell (cell_ptr st (row + k) col) (byte VID_BOX_V)
                        (byte (vid_map_attr st attr)))
  /\ length (cells_written st (vid_vline row col n attr st)) = Z.to_nat n
  /\ (forall k, cell_ptr st (row + k) col
                = far_add (cell_ptr st row col) (2 * (k * VID_COLS)))
  /\ (n <= 0 -> vid_vline row col n attr st = st).
Proof.
  pose proof (vid_vline_writes row col n attr st) as H.
  rewrite (writes_cells_written _ _ _ H). rewrite out_attr_mapped in *.
  split; [exact H|]. split; [reflexivity|].
  split; [|split; [|split]].
  - intros x. rewrite in_col_run. split.
    + intros (j & Hj & ->). exists j. split; [lia|]. do 2 f_equal.
    + intros (k & Hk & ->). exists k. split; [lia|]. do 2 f_equal.
  - apply col_run_length.
  - intros k. rewrite cell_ptr_right. symmetry. apply cell_ptr_next_row.
  - intros Hle. apply writes_nothing.
    replace (Z.to_nat n) with O in H by lia. exact H.
Qed.

End LineTheorems.

Lemma vid_vline_column_witness :
  @vid_vline ibm_text 3 4 0 0x07 (descriptor VID_CGA 0) = descriptor VID_CGA 0.
Proof.
  destruct (@vid_vline_column ibm_text 3 4 0 0x07 (descriptor VID_CGA 0))
    as (_ & _ & _ & _ & _ & Hnop).
  apply Hnop. lia.
Defined.

(** ** Detection: what a run leaves alone *)

Lemma quiet_refl st : quiet st st.
Proof. repeat split. Qed.

Lemma quiet_trans st1 st2 st3 : quiet st1 st2 -> quiet st2 st3 -> quiet st1 st3.
Proof.
  intros (Hs & Hw & Hr) (Hs' & Hw' & Hr'). repeat split.
  - congruence.
  - intros p Hp. rewrite Hw', Hw by exact Hp. reflexivity.
  - intros p Hp Hq. rewrite Hr', Hr by assumption. reflexivity.
Qed.

Lemma quiet_set_descriptor type mono base st :
  quiet st (set_descriptor type mono base st).
Proof. repeat split. Qed.

Lemma quiet_read st port v :
  port = 0x3BA \/ port = 0x3DD -> quiet st (log_io (PortIn port v) st).
Proof.
  intros Hport. repeat split. intros p Hp Hq. cbn [log_io io nreads].
  destruct (Z.eqb_spec port p) as [E|_]; [|reflexivity].
  exfalso. destruct Hport; congruence.
Qed.

Lemma quiet_write st v : quiet st (log_io (PortOut 0x3DD v) st).
Proof.
  repeat split. intros p Hp. cbn [log_io io written].
  destruct (Z.eqb_spec 0x3DD p) as [E|_]; [|reflexivity].
  exfalso. apply Hp. symmetry. exact E.
Qed.

Section QuietFacts.
Variable hw : machine.

Lemma retrace_poll_quiet val : forall fuel i st changed st',
  retrace_poll hw fuel i val st = Some (changed, st') -> quiet st st'.
Proof.
  induction fuel as [|fuel IH]; intros i st changed st'; [discriminate|].
  cbn [retrace_poll]. destruct (i <? 32768).
  - unfold bind at 1. rewrite inp_retrace.
    destruct (negb (Z.land (retrace_sample hw st 0) 0x80 =? val)).
    + unfold ret. intros H; injection H as _ <-.
      apply quiet_read. left. reflexivity.
    + intros H. apply IH in H.
      eapply quiet_trans; [|exact H]. apply quiet_read. left. reflexivity.
  - unfold ret. intros H; injection H as _ <-. apply quiet_refl.
Qed.

Lemma vid_init_mono_quiet fuel st r st' :
  vid_init_mono hw fuel st = Some (r, st') -> quiet st st'.
Proof.
  unfold vid_init_mono, bind at 1 2. rewrite inp_retrace. unfold bind at 1.
  destruct (retrace_poll hw fuel 0 _ _) as [[changed s]|] eqn:Hpoll; [|discriminate].
  apply retrace_poll_quiet in Hpoll.
  assert (Hs : quiet st s).
  { eapply quiet_trans; [|exact Hpoll].
    eapply (quiet_trans _ (set_base 0xB0000000 st)); [repeat split|].
    apply quiet_read. left. reflexivity. }
  destruct (truthy changed).
  - unfold bind at 1. rewrite inp_retrace.
    assert (Hs' : quiet st (log_io (PortIn 0x3BA (retrace_sample hw s 0)) s)).
    { eapply quiet_trans; [exact Hs|]. apply quiet_read. left. reflexivity. }
    repeat (destruct (_ =? _));
      unfold bind, vid_set, vid_set_ex, ret; intros H; injection H as _ <-;
      (eapply quiet_trans; [exact Hs'|apply quiet_set_descriptor]).
  - unfold bind, vid_set, ret. intros H; injection H as _ <-.
    eapply quiet_trans; [exact Hs|apply quiet_set_descriptor].
Qed.

Lemma vid_init_color_quiet st r st' :
  vid_init_color hw st = Some (r, st') -> quiet st st'.
Proof.
  unfold vid_init_color, bind, outp, inp, vid_set, ret.
  set (s1 := log_io (PortOut 0x3DD (byte 0x55)) st).
  set (v1 := byte (port_in hw 0x3DD (nreads 0x3DD (io s1)) (written 0x3DD (io s1)))).
  set (s2 := log_io (PortIn 0x3DD v1) s1).
  assert (Q2 : quiet st s2).
  { eapply quiet_trans; [apply quiet_write|]. apply quiet_read. right. reflexivity. }
  destruct (v1 =? 0x55).
  - set (s3 := log_io (PortOut 0x3DD (byte 0xAA)) s2).
    set (v2 := byte (port_in hw 0x3DD (nreads 0x3DD (io s3)) (written 0x3DD (io s3)))).
    set (s4 := log_io (PortIn 0x3DD v2) s3).
    assert (Q4 : quiet st s4).
    { eapply quiet_trans; [exact Q2|].
      eapply quiet_trans; [apply quiet_write|]. apply quiet_read. right. reflexivity. }
    destruct (v2 =? 0xAA); intros H; injection H as _ <-;
      (eapply quiet_trans; [exact Q4|]);
      (eapply quiet_trans; [apply quiet_write|apply quiet_set_descriptor]).
  - intros H; injection H as _ <-.
    eapply quiet_trans; [exact Q2|].
    eapply quiet_trans; [apply quiet_write|apply quiet_set_descriptor].
Qed.

(** X15. A run of [vid_init] that returns has made no far-memory store
    (the video buffer is as it was), has written to no port other than
    3DDh and has read no port other than 3BAh and 3DDh. *)
Theorem vid_init_quiet (fuel : nat) (regs0 : REGS) (st : state)
  (r : adapter) (st' : state) :
  vid_init hw fuel regs0 st = Some (r, st') ->
  stores st' = stores st
  /\ (forall p, p <> 0x3DD -> written p (io st') = written p (io st))
  /\ (forall p, p <> 0x3BA -> p <> 0x3DD ->
        nreads p (io st') = nreads p (io st)).
Proof.
  change (vid_init hw fuel regs0 st = Some (r, st') -> quiet st st').
  destruct (if al (video_state_reply hw regs0) =? 0x1A
            then display_code (bl (video_state_reply hw regs0)) else None)
    as [[type mono]|] eqn:Hstep1.
  - destruct (Z.eqb_spec (al (video_state_reply hw regs0)) 0x1A) as [Hal|_];
      [|discriminate].
    rewrite (vid_init_video_state hw fuel regs0 st type mono Hal Hstep1).
    intros H; injection H as _ <-. apply quiet_set_descriptor.
  - destruct (Z.eq_dec (bl (ega_reply hw regs0)) 0x10) as [Hega|Hega].
    + destruct (pga_accepts_dec hw) as [Hpga|Hpga].
      * rewrite (vid_init_pga hw fuel regs0 st Hstep1 Hega Hpga).
        intros H; injection H as _ <-. apply quiet_set_descriptor.
      * rewrite (vid_init_past_pga hw fuel regs0 st (conj Hstep1 (conj Hega Hpga))).
        destruct (Z.eq_dec (equipment_bits hw regs0) 0x03) as [Hmono|Hcolor].
        -- rewrite (vid_init_equipment_mono hw fuel regs0 st Hmono).
           apply vid_init_mono_quiet.
        -- rewrite (vid_init_equipment_color hw fuel regs0 st Hcolor).
           apply vid_init_color_quiet.
    + rewrite (vid_init_ega hw fuel regs0 st Hstep1 Hega).
      intros H; injection H as _ <-. apply quiet_set_descriptor.
Qed.

End QuietFacts.

Lemma vid_init_quiet_witness :
  stores (final_state colorplus_pc 0 no_regs boot) = stores boot
  /\ written 0x3D8 (io (final_state colorplus_pc 0 no_regs boot)) = [].
Proof.
  assert (E : vid_init colorplus_pc 0 no_regs boot
              = Some (VID_COLORPLUS, final_state colorplus_pc 0 no_regs boot))
    by (vm_compute; reflexivity).
  destruct (vid_init_quiet colorplus_pc 0 no_regs boot VID_COLORPLUS _ E)
    as (Hs & Hw & _).
  split; [exact Hs|]. apply (Hw 0x3D8). discriminate.
Defined.

(** ** Detection: the single steps *)

Lemma display_code_listed code :
  (exists tm, display_code code = Some tm) <-> In code display_codes.
Proof.
  unfold display_code, display_codes. cbn [In].
  destruct (Z.eqb_spec code 0x01); [subst; split; [intros _; intuition|eexists; reflexivity]|].
  destruct (Z.eqb_spec code 0x02); [subst; split; [intros _; intuition|eexists; reflexivity]|].
  destruct (Z.eqb_spec code 0x04); [subst; split; [intros _; intuition|eexists; reflexivity]|].
  destruct (Z.eqb_spec code 0x05); [subst; split; [intros _; intuition|eexists; reflexivity]|].
  destruct (Z.eqb_spec code 0x06); [subst; split; [intros _; intuition|eexists; reflexivity]|].
  destruct (Z.eqb_spec code 0x07); [subst; split; [intros _; intuition|eexists; reflexivity]|].
  destruct (Z.eqb_spec code 0x08); [subst; split; [intros _; intuition|eexists; reflexivity]|].
  destruct (Z.eqb_spec code 0x0A); [subst; split; [intros _; intuition|eexists; reflexivity]|].
  destruct (Z.eqb_spec code 0x0B); [subst; split; [intros _; intuition|eexists; reflexivity]|].
  destruct (Z.eqb_spec code 0x0C); [subst; split; [intros _; intuition|eexists; reflexivity]|].
  split; [intros (tm & H); discriminate H|].
  intros H. exfalso. intuition congruence.
Qed.

Lemma display_code_types code type mono :
  display_code code = Some (type, mono) ->
  In type [VID_MDA; VID_CGA; VID_EGA; VID_VGA; VID_PGA; VID_MCGA].
Proof.
  unfold display_code.
  repeat (destruct (code =? _); [intros H; injection H as <- _; cbn; tauto|]).
  discriminate.
Qed.

Section StepTheorems.
Variable hw : machine.

(** X16. With AL = 1Ah from the video-state query, [vid_init] returns
    at once, for display code 01h MDA (mono), 02h CGA, 04h EGA, 05h EGA
    (mono), 06h PGA, 07h VGA (mono), 08h VGA, 0Ah MCGA, 0Bh MCGA (mono),
    0Ch MCGA, mono types on the mono buffer and the others on the color
    buffer.  With AL not 1Ah, or with any other display code, step 1
    decides nothing: a changed BL of the EGA query gives EGA, else an
    accepting PGA probe gives PGA, else the run goes on with the
    equipment word. *)
Theorem vid_init_display_code (fuel : nat) (regs0 : REGS) (st : state) :
  (al (video_state_reply hw regs0) = 0x1A ->
   decides_at hw fuel regs0 st 0x01 VID_MDA 1 MONO_BASE
   /\ decides_at hw fuel regs0 st 0x02 VID_CGA 0 COLOR_BASE
   /\ decides_at hw fuel regs0 st 0x04 VID_EGA 0 COLOR_BASE
   /\ decides_at hw fuel regs0 st 0x05 VID_EGA 1 MONO_BASE
   /\ decides_at hw fuel regs0 st 0x06 VID_PGA 0 COLOR_BASE
   /\ decides_at hw fuel regs0 st 0x07 VID_VGA 1 MONO_BASE
   /\ decides_at hw fuel regs0 st 0x08 VID_VGA 0 COLOR_BASE
   /\ decides_at hw fuel regs0 st 0x0A VID_MCGA 0 COLOR_BASE
   /\ decides_at hw fuel regs0 st 0x0B VID_MCGA 1 MONO_BASE
   /\ decides_at hw fuel regs0 st 0x0C VID_MCGA 0 COLOR_BASE)
  /\ (al (video_state_reply hw regs0) <> 0x1A
      \/ ~ In (bl (video_state_reply hw regs0)) display_codes ->
      (bl (ega_reply hw regs0) <> 0x10 ->
       exists st', vid_init hw fuel regs0 st = Some (VID_EGA, st'))
      /\ (bl (ega_reply hw regs0) = 0x10 -> pga_accepts hw ->
          vid_init hw fuel regs0 st
          = Some (VID_PGA, set_descriptor VID_PGA 0 COLOR_BASE st))
      /\ (bl (ega_reply hw regs0) = 0x10 -> ~ pga_accepts hw ->
          vid_init hw fuel regs0 st
          = vid_init_equipment hw fuel (ega_reply hw regs0) st)).
Proof.
  split.
  - intros Hal. unfold decides_at.
    repeat split; intros Hbl;
      match goal with
      | |- _ = Some (?t, set_descriptor ?t ?m _ st) =>
          exact (vid_init_video_state hw fuel regs0 st t m Hal
                   ltac:(rewrite Hbl; reflexivity))
      end.
  - intros Hno.
    assert (Hstep1 : video_state_unmatched hw regs0).
    { unfold video_state_unmatched.
      destruct (Z.eqb_spec (al (video_state_reply hw regs0)) 0x1A) as [Hal|_];
        [|reflexivity].
      destruct Hno as [Hno|Hno]; [contradiction|].
      destruct (display_code (bl (video_state_reply hw regs0))) eqn:E; [|reflexivity].
      exfalso. apply Hno. apply display_code_listed. eexists. exact E. }
    split; [|split].
    + intros Hega. eexists. exact (vid_init_ega hw fuel regs0 st Hstep1 Hega).
    + intros Hega Hpga. exact (vid_init_pga hw fuel regs0 st Hstep1 Hega Hpga).
    + intros Hega Hpga. apply vid_init_past_pga. repeat split; assumption.
Qed.

(** X17. When step 1 does not decide and the EGA query changes BL,
    [vid_init] returns EGA at once: mono flag and mono buffer when BH is
    not zero, color flag and color buffer when it is, no port touched
    and nothing stored. *)
Theorem vid_init_ega_step (fuel : nat) (regs0 : REGS) (st : state) :
  video_state_unmatched hw regs0 ->
  bl (ega_reply hw regs0) <> 0x10 ->
  exists st',
    vid_init hw fuel regs0 st = Some (VID_EGA, st')
    /\ vid_adapter_type st' = VID_EGA
    /\ (bh (ega_reply hw regs0) <> 0 ->
        vid_mono st' = 1 /\ vid_base st' = MONO_BASE)
    /\ (bh (ega_reply hw regs0) = 0 ->
        vid_mono st' = 0 /\ vid_base st' = COLOR_BASE)
    /\ io st' = io st /\ stores st' = stores st.
Proof.
  intros Hstep1 Hega. eexists.
  split; [exact (vid_init_ega hw fuel regs0 st Hstep1 Hega)|].
  cbn [set_descriptor vid_adapter_type vid_mono vid_base io stores].
  split; [reflexivity|].
  destruct (Z.eqb_spec (bh (ega_reply hw regs0)) 0) as [E|N]; cbn [negb];
    repeat split; intros; try reflexivity; contradiction.
Qed.

(** X18. On the monochrome branch, once bit 7 of port 3BAh has moved
    (however many polls that took), [vid_init] returns the type the
    card ID of the next status read selects: 1 gives Hercules Plus, 5
    gives InColor with the mono flag clear, any other ID gives
    Hercules; the buffer is the mono buffer in all three cases. *)
Theorem vid_init_hercules_family (regs0 : REGS) (st : state) (j : nat) :
  reaches_equipment hw regs0 ->
  equipment_bits hw regs0 = 0x03 ->
  first_toggle hw st j ->
  exists r st',
    returns hw regs0 st r st'
    /\ vid_adapter_type st' = r
    /\ vid_base st' = MONO_BASE
    /\ stores st' = stores st
    /\ (card_id (retrace_sample hw st (S j)) = 1 ->
        r = VID_HERCPLUS /\ vid_mono st' = 1)
    /\ (card_id (retrace_sample hw st (S j)) = 5 ->
        r = VID_INCOLOR /\ vid_mono st' = 0)
    /\ (card_id (retrace_sample hw st (S j)) <> 1 ->
        card_id (retrace_sample hw st (S j)) <> 5 ->
        r = VID_HERCULES /\ vid_mono st' = 1).
Proof.
  intros Hreach Hbits Htoggle.
  destruct (vid_init_mono_toggle hw st j j Htoggle (Nat.le_refl j))
    as (st' & Hrun & Htype & Hmono & Hbase & Hst).
  eexists _, st'. split.
  { exists j. rewrite (vid_init_on_mono hw j regs0 st Hreach Hbits). exact Hrun. }
  split; [exact Htype|]. split; [exact Hbase|]. split; [exact Hst|].
  rewrite Hmono. unfold hercules_kind.
  destruct (Z.eqb_spec (card_id (retrace_sample hw st (S j))) 1) as [E1|N1];
    [|destruct (Z.eqb_spec (card_id (retrace_sample hw st (S j))) 5) as [E5|N5]];
    cbn [fst snd]; repeat split; intros; try reflexivity;
    try contradiction; try congruence.
Qed.

(** X19. Off the monochrome branch [vid_init] returns on every machine,
    without entering its poll, and the type is none of the Hercules
    family. *)
Theorem vid_init_returns_off_mono (fuel : nat) (regs0 : REGS) (st : state) :
  ~ (reaches_equipment hw regs0 /\ equipment_bits hw regs0 = 0x03) ->
  exists r st',
    vid_init hw fuel regs0 st = Some (r, st')
    /\ In r [VID_MDA; VID_CGA; VID_EGA; VID_VGA; VID_PGA; VID_MCGA; VID_COLORPLUS].
Proof.
  intros Hoff.
  destruct (if al (video_state_reply hw regs0) =? 0x1A
            then display_code (bl (video_state_reply hw regs0)) else None)
    as [[type mono]|] eqn:Hstep1.
  - destruct (Z.eqb_spec (al (video_state_reply hw regs0)) 0x1A) as [Hal|_];
      [|discriminate].
    eexists _, _.
    split; [exact (vid_init_video_state hw fuel regs0 st type mono Hal Hstep1)|].
    pose proof (display_code_types _ _ _ Hstep1) as Hin. cbn in Hin |- *. tauto.
  - destruct (Z.eq_dec (bl (ega_reply hw regs0)) 0x10) as [Hega|Hega].
    + destruct (pga_accepts_dec hw) as [Hpga|Hpga].
      * eexists _, _.
        split; [exact (vid_init_pga hw fuel regs0 st Hstep1 Hega Hpga)|].
        cbn; tauto.
      * assert (Hreach : reaches_equipment hw regs0) by (repeat split; assumption).
        destruct (Z.eq_dec (equipment_bits hw regs0) 0x03) as [Hmono|Hcolor];
          [exfalso; apply Hoff; split; assumption|].
        destruct (vid_init_color_returns hw st)
          as (r & st' & Hrun & Hplus & Hcga & _).
        exists r, st'. rewrite (vid_init_on_color hw fuel regs0 st Hreach Hcolor).
        split; [exact Hrun|].
        destruct (Z.eq_dec (colorplus_first hw st) 0x55) as [E1|N1];
          [destruct (Z.eq_dec (colorplus_second hw st) 0xAA) as [E2|N2]|].
        -- rewrite (proj2 Hplus (conj E1 E2)). cbn; tauto.
        -- rewrite (proj2 Hcga); [cbn; tauto|]. intros [_ H]. contradiction.
        -- rewrite (proj2 Hcga); [cbn; tauto|]. intros [H _]. contradiction.
    + eexists _, _.
      split; [exact (vid_init_ega hw fuel regs0 st Hstep1 Hega)|].
      cbn; tauto.
Qed.

End StepTheorems.

Lemma vid_init_display_code_witness :
  vid_init vga_mono_pc 0 no_regs boot
  = Some (VID_VGA, set_descriptor VID_VGA 1 MONO_BASE boot)
  /\ vid_init pga_pc 0 no_regs boot
     = Some (VID_PGA, set_descriptor VID_PGA 0 COLOR_BASE boot).
Proof.
  split.
  - destruct (proj1 (vid_init_display_code vga_mono_pc 0 no_regs boot) eq_refl)
      as (_ & _ & _ & _ & _ & H07 & _).
    apply H07. reflexivity.
  - destruct (proj2 (vid_init_display_code pga_pc 0 no_regs boot))
      as (_ & Hpga & _).
    + left. vm_compute. discriminate.
    + apply Hpga; [reflexivity|].
      repeat split; vm_compute; intros H; discriminate H.
Defined.

Lemma vid_init_ega_step_witness :
  exists st',
    vid_init ega_pc 0 no_regs boot = Some (VID_EGA, st')
    /\ vid_mono st' = 0 /\ vid_base st' = COLOR_BASE.
Proof.
  destruct (vid_init_ega_step ega_pc 0 no_regs boot) as (st' & Hrun & _ & _ & Hcolor & _).
  - reflexivity.
  - vm_compute. discriminate.
  - exists st'. split; [exact Hrun|]. apply Hcolor. reflexivity.
Defined.

Lemma vid_init_hercules_family_witness :
  exists st', returns incolor_pc no_regs boot VID_INCOLOR st' /\ vid_mono st' = 0.
Proof.
  destruct (vid_init_hercules_family incolor_pc no_regs boot 3)
    as (r & st' & Hrun & _ & _ & _ & _ & H5 & _).
  - repeat split; try reflexivity. intros (Hs & _). apply Hs. reflexivity.
  - reflexivity.
  - exact incolor_pc_first_toggle.
  - destruct (H5 eq_refl) as [-> Hmono]. exists st'. split; assumption.
Defined.

Lemma vid_init_returns_off_mono_witness :
  exists r st', vid_init cga_pc 0 no_regs boot = Some (r, st').
Proof.
  destruct (vid_init_returns_off_mono cga_pc 0 no_regs boot)
    as (r & st' & Hrun & _).
  - intros (_ & Hbits). vm_compute in Hbits. discriminate Hbits.
  - exists r, st'. exact Hrun.
Defined.

(** X20. On the monochrome branch, when bit 7 of port 3BAh never
    moves, [vid_init] does not return, whatever number of polls it is
    allowed: on any machine, not only the sample MDA. *)
Theorem vid_init_poll_unbounded (hw : machine) (regs0 : REGS) (st : state) :
  reaches_equipment hw regs0 ->
  equipment_bits hw regs0 = 0x03 ->
  retrace_steady hw st ->
  forall fuel, vid_init hw fuel regs0 st = None.
Proof.
  intros Hreach Hbits Hsteady fuel.
  rewrite (vid_init_on_mono hw fuel regs0 st Hreach Hbits).
  apply vid_init_mono_steady, Hsteady.
Qed.

Lemma vid_init_poll_unbounded_witness :
  vid_init mda_pc 50 no_regs (descriptor VID_CGA 0) = None.
Proof.
  apply vid_init_poll_unbounded.
  - repeat split; try reflexivity. intros (Hs & _). apply Hs. reflexivity.
  - reflexivity.
  - intros k. reflexivity.
Defined.
